(** * Resistor colour-code calculator: a shallow embedding of [funcs.c]

    The development follows the C source function by function.

    - C [int] is a 32-bit two's complement integer and [long] a 64-bit one
      (LP64); values are carried in [Z] and the limits are written out.
    - C [double] is kept abstract behind the operations the source applies
      to it ([DoubleOps]).  Two interpretations are given: IEEE binary64
      (the kernel's primitive floats), which is what the program computes
      with, and exact rational arithmetic ([Q], the "real numbers" of the
      specification), which is an idealisation: no rounding, no NaN, no
      infinity.  A theorem over [Q] alone says what the computation gives
      in exact arithmetic and says so in its comment; theorems over every
      [DoubleOps], and those that name binary64, hold of the program's own
      arithmetic.  Every concrete evaluation is checked under both.
    - Behaviour that C leaves undefined (a [double] to [int] conversion
      whose value does not fit, an array index outside its table) is an
      explicit [Undefined] result.
    - Console and file effects are threaded through a [world] record. *)

From Stdlib Require Import ZArith QArith Qabs Qround Lqa Lia Bool List.
From Stdlib Require Import Ascii String DecimalString.
From Stdlib Require Import Floats.
Import ListNotations.

Local Open Scope Z_scope.

(** * Part I: the embedding *)

(** ** C integer limits *)

Definition INT_MIN : Z := - 2 ^ 31.
Definition INT_MAX : Z := 2 ^ 31 - 1.
Definition LONG_MIN : Z := - 2 ^ 63.
Definition LONG_MAX : Z := 2 ^ 63 - 1.

Definition in_int (z : Z) : bool := (INT_MIN <=? z) && (z <=? INT_MAX).

(** ** Results of C expressions that may be undefined *)

Inductive ub : Type :=
| IntConversionOutOfRange   (* (int)x with trunc x outside [INT_MIN, INT_MAX] *)
| IndexOutOfBounds.         (* a[i] with i outside the array *)

Inductive cresult (A : Type) : Type :=
| Defined (a : A)
| Undefined (why : ub).

Arguments Defined {A} a.
Arguments Undefined {A} why.

Definition cbind {A B} (c : cresult A) (k : A -> cresult B) : cresult B :=
  match c with
  | Defined a => k a
  | Undefined why => Undefined why
  end.

Notation "x <- c ;; k" := (cbind c (fun x => k))
  (at level 61, c at next level, right associativity).

(** [a[i]] on a fixed table. *)
Definition index {A} (table : list A) (i : Z) : cresult A :=
  if i <? 0 then Undefined IndexOutOfBounds
  else match nth_error table (Z.to_nat i) with
       | Some a => Defined a
       | None => Undefined IndexOutOfBounds
       end.

(** ** The operations the source applies to [double] *)

Class DoubleOps (D : Type) : Type := {
  dlit : Q -> D;              (* a decimal constant of the source text *)
  dof_int : Z -> D;           (* the implicit conversion int -> double *)
  dadd : D -> D -> D;
  dmul : D -> D -> D;
  ddiv : D -> D -> D;
  dfabs : D -> D;
  dge : D -> D -> bool;       (* x >= y *)
  dlt : D -> D -> bool;       (* x < y *)
  dto_int : D -> cresult Z    (* (int)x : truncation toward zero *)
}.

(** *** Exact interpretation: rational numbers

    The arithmetic of the specification's real numbers, not that of C:
    sums, products and quotients are not rounded, and there is no NaN and
    no infinity.  The two interpretations differ, for instance, on
    [3 * 0.1] and on [1 / (1 / 49)]. *)

Definition Q_to_int (x : Q) : cresult Z :=
  let t := Z.quot (Qnum x) (Zpos (Qden x)) in
  if in_int t then Defined t else Undefined IntConversionOutOfRange.

#[export] Instance Q_double : DoubleOps Q := {
  dlit q := q;
  dof_int z := inject_Z z;
  dadd := Qplus;
  dmul := Qmult;
  ddiv := Qdiv;
  dfabs := Qabs;
  dge x y := Qle_bool y x;
  dlt x y := negb (Qle_bool y x);
  dto_int := Q_to_int
}.

(** *** IEEE binary64 interpretation: primitive floats *)

Definition float_of_Z (z : Z) : float :=
  match z with
  | Z0 => PrimFloat.zero
  | Zpos _ => PrimFloat.of_uint63 (Uint63.of_Z z)
  | Zneg p => PrimFloat.opp (PrimFloat.of_uint63 (Uint63.of_Z (Zpos p)))
  end.

(** Numerator and denominator of every constant of the source are below
    2^53, so both convert exactly and the correctly rounded quotient is the
    binary64 value nearest to the decimal constant. *)
Definition float_lit (q : Q) : float :=
  PrimFloat.div (float_of_Z (Qnum q)) (float_of_Z (Zpos (Qden q))).

Definition float_to_int (x : float) : cresult Z :=
  match Prim2SF x with
  | S754_zero _ => Defined 0
  | S754_finite s m e =>
      let mag := if 0 <=? e then Z.shiftl (Zpos m) e
                 else Z.shiftr (Zpos m) (- e) in
      let t := if s then - mag else mag in
      if in_int t then Defined t else Undefined IntConversionOutOfRange
  | S754_infinity _ | S754_nan => Undefined IntConversionOutOfRange
  end.

#[export] Instance binary64_double : DoubleOps float := {
  dlit := float_lit;
  dof_int := float_of_Z;
  dadd := PrimFloat.add;
  dmul := PrimFloat.mul;
  ddiv := PrimFloat.div;
  dfabs := PrimFloat.abs;
  dge x y := PrimFloat.leb y x;
  dlt x y := PrimFloat.ltb x y;
  dto_int := float_to_int
}.

(** ** Bounded [while] loops

    Both normalisation loops of the decoder move a counter toward a fixed
    limit, so nine iterations always suffice; [while_loop_exit] shows that
    the loop leaves through its guard and never through the bound. *)

Fixpoint while_loop {S : Type} (bound : nat) (cond : S -> bool)
         (body : S -> S) (s : S) : S :=
  match bound with
  | O => s
  | Datatypes.S k => if cond s then while_loop k cond body (body s) else s
  end.

(** ** Band tables (module 1) *)

Local Open Scope string_scope.

Definition digit_color_names : list string :=
  [ "0 Black"; "1 Brown"; "2 Red"; "3 Orange"; "4 Yellow";
    "5 Green"; "6 Blue"; "7 Violet"; "8 Grey"; "9 White" ].

Definition multiplier_color_names : list string :=
  [ "0 Black x1"; "1 Brown x10"; "2 Red x100"; "3 Orange x1k";
    "4 Yellow x10k"; "5 Green x100k"; "6 Blue x1M"; "7 Violet x10M";
    "8 Grey x100M"; "9 White x1G"; "10 Gold x0.1"; "11 Silver x0.01" ].

Local Close Scope string_scope.

Section Numeric.

Context {D : Type} {ops : DoubleOps D}.

Definition multiplier_values : list D :=
  map dlit [ 1; 10; 100; 1000; 10000; 100000; 1000000; 10000000;
             100000000; 1000000000; 1 # 10; 1 # 100 ]%Q.

(** *** Colour to resistance: the computation of [rcc_color_to_resistance]

    [b1], [b2] and [m] are the values returned by the three [read_int]
    calls; the function yields the value stored in [R]. *)

Definition rcc_color_to_resistance (b1 b2 m : Z) : cresult D :=
  let base := dof_int (b1 * 10 + b2) in
  mv <- index multiplier_values m ;;
  Defined (dmul base mv).

(** *** Resistance to colour: the computation of [rcc_resistance_to_color] *)

Record bands : Type := {
  d1 : Z;
  d2 : Z;
  m_exp : Z;
  band1 : string;
  band2 : string;
  band3 : string
}.

Definition scale_down_cond (s : D * Z) : bool :=
  dge (fst s) (dof_int 100) && (snd s <? 9).
Definition scale_down_body (s : D * Z) : D * Z :=
  (ddiv (fst s) (dof_int 10), snd s + 1).

Definition scale_up_cond (s : D * Z) : bool :=
  dlt (fst s) (dof_int 10) && (0 <? snd s).
Definition scale_up_body (s : D * Z) : D * Z :=
  (dmul (fst s) (dof_int 10), snd s - 1).

(** The two [while] loops: the state is [(base, m)]. *)
Definition normalize (R : D) : D * Z :=
  let s := while_loop 9 scale_down_cond scale_down_body (R, 0) in
  while_loop 9 scale_up_cond scale_up_body s.

Definition rcc_resistance_to_color (R : D) : cresult bands :=
  let '(base, m) := normalize R in
  rounded <- dto_int (dadd base (dlit (1 # 2))) ;;
  let '(rounded, m) :=
    if 100 <=? rounded then (10, m + 1) else (rounded, m) in
  let d1 := Z.quot rounded 10 in
  let d2 := Z.rem rounded 10 in
  b1 <- index digit_color_names d1 ;;
  b2 <- index digit_color_names d2 ;;
  b3 <- index multiplier_color_names m ;;
  Defined {| d1 := d1; d2 := d2; m_exp := m;
             band1 := b1; band2 := b2; band3 := b3 |}.

End Numeric.

(** ** Engineering-notation display: [print_resistance_value]

    The function ends in one [printf] call; the embedding returns that
    call's format string and its two arguments. *)

Local Open Scope string_scope.

Definition nl : string := String "010" EmptyString.

Record printf_double_string (D : Type) : Type := {
  pf_format : string;
  pf_arg1 : D;         (* for %.4g *)
  pf_arg2 : string     (* for %s *)
}.

Arguments pf_format {D} _.
Arguments pf_arg1 {D} _.
Arguments pf_arg2 {D} _.

Section Formatter.

Context {D : Type} {ops : DoubleOps D}.

Definition print_resistance_value (R : D) : printf_double_string D :=
  let '(disp, unit) :=
    if dge (dfabs R) (dlit 1000000) then (ddiv R (dlit 1000000), "MÎ©")
    else if dge (dfabs R) (dlit 1000) then (ddiv R (dlit 1000), "kÎ©")
    else (R, "Î©") in
  {| pf_format := "Approx resistance: %.4g %s" ++ nl;
     pf_arg1 := disp;
     pf_arg2 := unit |}.

End Formatter.

(** ** Console and log file *)

Definition NUL : ascii := "000"%char.
Definition TAB : ascii := "009"%char.
Definition LF : ascii := "010"%char.
Definition CR : ascii := "013"%char.

Definition LOG_FILENAME : string := "calc_log.txt".

Record world : Type := {
  stdin : list ascii;      (* the bytes of standard input not yet read *)
  stdout : list string;    (* the text of each printf call, oldest first *)
  log_file : string;       (* the contents of calc_log.txt *)
  log_openable : bool      (* whether fopen(LOG_FILENAME, "a") succeeds *)
}.

Definition printf (text : string) (w : world) : world :=
  {| stdin := stdin w; stdout := stdout w ++ [text];
     log_file := log_file w; log_openable := log_openable w |}.

Definition set_stdin (rest : list ascii) (w : world) : world :=
  {| stdin := rest; stdout := stdout w;
     log_file := log_file w; log_openable := log_openable w |}.

(** [fprintf(fp, "%s\n", summary)] on the log opened for appending. *)
Definition fprintf_log (summary : string) (w : world) : world :=
  {| stdin := stdin w; stdout := stdout w;
     log_file := log_file w ++ summary ++ nl; log_openable := log_openable w |}.

(** How a call ends: it returns to its caller, or the process exits. *)
Inductive outcome (A : Type) : Type :=
| Returned (a : A) (w : world)
| Exited (status : Z) (w : world)
| OutOfFuel.

Arguments Returned {A} a w.
Arguments Exited {A} status w.
Arguments OutOfFuel {A}.

(** [fgets(buf, size, stdin)]: at most [size - 1] bytes, through the first
    newline; [None] at end of input.  The buffer is the list of bytes
    stored before the terminating NUL. *)
Fixpoint read_line (n : nat) (s : list ascii) : list ascii * list ascii :=
  match n, s with
  | O, _ => ([], s)
  | _, [] => ([], [])
  | S k, c :: t =>
      if Ascii.eqb c LF then ([c], t)
      else let '(l, r) := read_line k t in (c :: l, r)
  end.

Definition fgets (size : nat) (w : world) : option (list ascii * world) :=
  match stdin w with
  | [] => None
  | _ :: _ =>
      let '(buf, rest) := read_line (size - 1) (stdin w) in
      Some (buf, set_stdin rest w)
  end.

(** [*p] for a pointer into a NUL-terminated buffer. *)
Definition deref (p : list ascii) : ascii := hd NUL p.

(** *** [strtol(buf, &endptr, 10)] *)

Definition isspace (c : ascii) : bool :=
  let n := nat_of_ascii c in
  (n =? 32)%nat || ((9 <=? n)%nat && (n <=? 13)%nat).

Definition isdigit (c : ascii) : bool :=
  let n := nat_of_ascii c in (48 <=? n)%nat && (n <=? 57)%nat.

Definition digit_value (c : ascii) : Z := (Z.of_nat (nat_of_ascii c) - 48)%Z.

Fixpoint skip_space (s : list ascii) : list ascii :=
  match s with
  | c :: t => if isspace c then skip_space t else s
  | [] => []
  end.

Fixpoint strtol_digits (acc : Z) (s : list ascii) : Z * list ascii :=
  match s with
  | c :: t =>
      if isdigit c then strtol_digits (acc * 10 + digit_value c)%Z t
      else (acc, s)
  | [] => (acc, [])
  end.

Definition clamp_long (z : Z) : Z := Z.max LONG_MIN (Z.min LONG_MAX z).

(** [None] is "no conversion performed" ([endptr == buf]); otherwise the
    value, saturated to [long], and the text from [endptr] on. *)
Definition strtol (buf : list ascii) : option (Z * list ascii) :=
  let s := skip_space buf in
  let '(negative, s) :=
    if Ascii.eqb (deref s) "-" then (true, tl s)
    else if Ascii.eqb (deref s) "+" then (false, tl s)
    else (false, s) in
  if isdigit (deref s) then
    let '(n, endptr) := strtol_digits 0 s in
    Some (clamp_long (if negative then (- n)%Z else n), endptr)
  else None.

(** *** [read_int] *)

Definition isblank (c : ascii) : bool := Ascii.eqb c " " || Ascii.eqb c TAB.

Fixpoint skip_blank (s : list ascii) : list ascii :=
  match s with
  | c :: t => if isblank c then skip_blank t else s
  | [] => []
  end.

(** printf's [%d]. *)
Definition decimal (z : Z) : string :=
  DecimalString.NilZero.string_of_int (Z.to_int z).

(** The conversion [(int)val] of a [long]. *)
Definition int_of_long (v : Z) : Z := ((v + 2 ^ 31) mod 2 ^ 32 - 2 ^ 31)%Z.

Definition msg_not_integer : string := "Please enter an integer." ++ nl.
Definition msg_unexpected : string := "Unexpected characters. Try again." ++ nl.
Definition msg_range (min max : Z) : string :=
  "Value must be between " ++ decimal min ++ " and " ++ decimal max ++ "." ++ nl.
Definition msg_input_error : string := nl ++ "Input error. Exiting." ++ nl.

Inductive attempt : Type :=
| Accept (v : Z)
| Retry (diagnostic : string).

(** The body of the [for (;;)] loop after [fgets] has filled [buf]. *)
Definition read_int_attempt (min max : Z) (buf : list ascii) : attempt :=
  match strtol buf with
  | None => Retry msg_not_integer
  | Some (val, endptr) =>
      let endptr := skip_blank endptr in
      if negb (Ascii.eqb (deref endptr) LF) && negb (Ascii.eqb (deref endptr) NUL)
      then Retry msg_unexpected
      else if (val <? min)%Z || (max <? val)%Z then Retry (msg_range min max)
      else Accept (int_of_long val)
  end.

Fixpoint read_int_loop (fuel : nat) (prompt : string) (min max : Z)
         (w : world) : outcome Z :=
  match fuel with
  | O => OutOfFuel
  | S fuel =>
      let w := printf prompt w in
      match fgets 64 w with
      | None => Exited 1 (printf msg_input_error w)
      | Some (buf, w) =>
          match read_int_attempt min max buf with
          | Retry diagnostic =>
              read_int_loop fuel prompt min max (printf diagnostic w)
          | Accept v => Returned v w
          end
      end
  end.

(** Every iteration consumes at least one byte of input or exits, so one
    more iteration than there are bytes is always enough
    ([read_int_total]). *)
Definition read_int (prompt : string) (min max : Z) (w : world) : outcome Z :=
  read_int_loop (S (List.length (stdin w))) prompt min max w.

(** *** [ask_and_save] *)

Definition msg_save_prompt : string :=
  nl ++ "Save this result to " ++ String "034" LOG_FILENAME
     ++ String "034" "? (y/n): ".

Definition ask_and_save (summary : string) (w : world) : outcome unit :=
  let w := printf msg_save_prompt w in
  match fgets 16 w with
  | None => Returned tt w
  | Some (buf, w) =>
      if Ascii.eqb (deref buf) "y" || Ascii.eqb (deref buf) "Y" then
        if log_openable w then
          Returned tt (printf ("Saved." ++ nl) (fprintf_log summary w))
        else Returned tt (printf ("Could not open log file." ++ nl) w)
      else Returned tt (printf ("Not saved." ++ nl) w)
  end.

Local Close Scope string_scope.

(** ** The comparison of [read_positive_double]

    [val <= 0.0] is the one operation [read_positive_double] applies to the
    value converted: there is no arithmetic to round.  Over binary64 the
    test is false for NaN. *)

Class DoubleCmp (D : Type) : Type := {
  dle : D -> D -> bool        (* x <= y *)
}.

#[export] Instance Q_cmp : DoubleCmp Q := {
  dle := Qle_bool
}.

#[export] Instance binary64_cmp : DoubleCmp float := {
  dle := PrimFloat.leb
}.

Local Open Scope string_scope.

(** ** [read_positive_double]

    The conversion itself is [strtod] of the C library; the embedding takes
    it as an argument ([None] for "no conversion", otherwise the value and
    the text from [endptr] on), so what is proved holds whatever it
    converts. *)

Inductive attempt_double (D : Type) : Type :=
| AcceptDouble (v : D)
| RetryDouble (diagnostic : string).

Arguments AcceptDouble {D} v.
Arguments RetryDouble {D} diagnostic.

Definition msg_not_number : string := "Enter a valid number." ++ nl.
Definition msg_invalid : string := "Invalid characters. Try again." ++ nl.
Definition msg_not_positive : string := "Value must be > 0." ++ nl.

Section ReadPositiveDouble.

Context {D : Type} {ops : DoubleOps D} {cmp : DoubleCmp D}.
Variable strtod : list ascii -> option (D * list ascii).

Definition read_positive_double_attempt (buf : list ascii) : attempt_double D :=
  match strtod buf with
  | None => RetryDouble msg_not_number
  | Some (val, endptr) =>
      let endptr := skip_blank endptr in
      if negb (Ascii.eqb (deref endptr) LF) && negb (Ascii.eqb (deref endptr) NUL)
      then RetryDouble msg_invalid
      else if dle val (dlit 0) then RetryDouble msg_not_positive
      else AcceptDouble val
  end.

Fixpoint read_positive_double_loop (fuel : nat) (prompt : string)
         (w : world) : outcome D :=
  match fuel with
  | O => OutOfFuel
  | S fuel =>
      let w := printf prompt w in
      match fgets 64 w with
      | None => Exited 1 (printf msg_input_error w)
      | Some (buf, w) =>
          match read_positive_double_attempt buf with
          | RetryDouble diagnostic =>
              read_positive_double_loop fuel prompt (printf diagnostic w)
          | AcceptDouble v => Returned v w
          end
      end
  end.

Definition read_positive_double (prompt : string) (w : world) : outcome D :=
  read_positive_double_loop (S (List.length (stdin w))) prompt w.

End ReadPositiveDouble.

(** ** The log tools: the two branches of [module_file_save_and_log]

    [fopen_ok] is whether the [fopen] of the branch succeeds. *)



(** The text of a NUL-terminated buffer. *)
Fixpoint c_string (buf : list ascii) : list ascii :=
  match buf with
  | [] => []
  | c :: t => if Ascii.eqb c NUL then [] else c :: c_string t
  end.

(** [fputs(line, stdout)]. *)
Definition fputs (line : list ascii) (w : world) : world :=
  printf (string_of_list_ascii (c_string line)) w.

(** [while (fgets(line, sizeof(line), fp)) fputs(line, stdout);] on the
    unread part [file] of the log; every round reads at least one byte. *)
Fixpoint view_lines (fuel : nat) (file : list ascii) (w : world) : world :=
  match fuel with
  | O => w
  | S fuel =>
      match file with
      | [] => w
      | _ :: _ =>
          let '(line, file) := read_line 255 file in
          view_lines fuel file (fputs line w)
      end
  end.

(** Choice 1: [fopen(LOG_FILENAME, "r")] and the echo of the file. *)
Definition view_log (fopen_ok : bool) (w : world) : world :=
  if fopen_ok then
    let file := list_ascii_of_string (log_file w) in
    let w := printf (nl ++ "--- File Start ---" ++ nl) w in
    let w := view_lines (S (List.length file)) file w in
    printf ("--- File End ---" ++ nl) w
  else printf ("No file or cannot open (maybe empty)." ++ nl) w.

Local Close Scope string_scope.

(** * Part II: the properties, in the specification's words *)

(** ** Unbounded [while] loops

    [while_rel cond body s s'] is the terminating execution of
    [while (cond) body] from state [s] to state [s']. *)

Inductive while_rel {S : Type} (cond : S -> bool) (body : S -> S)
  : S -> S -> Prop :=
| while_done s : cond s = false -> while_rel cond body s s
| while_step s s' :
    cond s = true -> while_rel cond body (body s) s' -> while_rel cond body s s'.

Section DecoderSpec.

Local Open Scope Q_scope.

(** What the first loop establishes, for a positive resistance. *)
Record normalized (R : Q) (s : Q * Z) : Prop := {
  nz_pos : 0 < fst s;
  nz_exp : (0 <= snd s <= 9)%Z;
  nz_val : fst s * inject_Z (10 ^ snd s) == R;
  nz_low : snd s = 0%Z \/ 10 <= fst s
}.

(** *** The decoder as the specification words it (section 4.5)

    Steps 1 to 3 are unbounded [while] loops over a real [base]; step 4
    rounds with [floor (base + 0.5)] to a mathematical integer; step 5 is
    the carry; step 6 splits the digits with integer division and
    remainder. *)

Definition spec_round_carry (s : Q * Z) : Z * Z * Z :=
  let roundedTwoDigit := Qfloor (fst s + (1 # 2)) in
  let '(roundedTwoDigit, multiplierExponent) :=
    if (100 <=? roundedTwoDigit)%Z then (10, snd s + 1)%Z
    else (roundedTwoDigit, snd s) in
  ((roundedTwoDigit / 10)%Z, (roundedTwoDigit mod 10)%Z, multiplierExponent).

Definition spec_decode (R : Q) (digit1 digit2 multiplierExponent : Z) : Prop :=
  exists s1 s2 : Q * Z,
    while_rel (fun s => Qle_bool 100 (fst s) && (snd s <? 9)%Z)
              (fun s => (fst s / 10, (snd s + 1)%Z)) (R, 0%Z) s1 /\
    while_rel (fun s => negb (Qle_bool 10 (fst s)) && (0 <? snd s)%Z)
              (fun s => (fst s * 10, (snd s - 1)%Z)) s1 s2 /\
    spec_round_carry s2 = (digit1, digit2, multiplierExponent).

(** *** The resistances whose rounded base fits an [int]

    [decoder_limit] is [(INT_MAX + 1/2) * 10^9]: below it the conversion
    [(int)(base + 0.5)] is defined, from it on it is not. *)

Definition decoder_limit : Q := 2147483647500000000.

End DecoderSpec.

(** ** The multiplier table as the specification words it (section 4.3)

    Indices 0 to 9 are [10^index]; 10 and 11 are the fractional gold and
    silver multipliers. *)
Definition spec_multiplierValue (i : Z) : Q :=
  if i =? 10 then 1 # 10
  else if i =? 11 then 1 # 100
  else inject_Z (10 ^ i).

(** The binary64 product of the encoder is finite and not negative. *)
Definition binary64_product_ok (base m : Z) : bool :=
  let r := PrimFloat.mul (float_of_Z base) (float_lit (spec_multiplierValue m)) in
  PrimFloat.is_finite r && PrimFloat.leb PrimFloat.zero r.

(** ** A valid line, as the specification words it (section 4.1)

    A line "parses as an integer with no trailing non-whitespace
    characters": optional leading white space, an optional sign, at least
    one decimal digit, then only white space.  [spec_line_value] takes the
    white space after the digits in the widest sense, every white-space
    character of C; [line_value] takes it as the source's comment "Skip
    white spaces after number" does, spaces and tabs. *)

Definition decimal_value (ds : list ascii) : Z :=
  fold_left (fun a c => (a * 10 + digit_value c)%Z) ds 0%Z.

Definition line_value (line : list ascii) (v : Z) : Prop :=
  exists ws sg ds trail,
    line = ws ++ sg ++ ds ++ trail /\
    forallb isspace ws = true /\
    (sg = [] /\ v = decimal_value ds \/
     sg = ["+"%char] /\ v = decimal_value ds \/
     sg = ["-"%char] /\ v = (- decimal_value ds)%Z) /\
    ds <> [] /\ forallb isdigit ds = true /\
    forallb isblank trail = true.

Definition spec_line_value (line : list ascii) (v : Z) : Prop :=
  exists ws sg ds trail,
    line = ws ++ sg ++ ds ++ trail /\
    forallb isspace ws = true /\
    (sg = [] /\ v = decimal_value ds \/
     sg = ["+"%char] /\ v = decimal_value ds \/
     sg = ["-"%char] /\ v = (- decimal_value ds)%Z) /\
    ds <> [] /\ forallb isdigit ds = true /\
    forallb isspace trail = true.

(** A line of text without NUL byte that fits the 64-byte buffer with its
    newline. *)
Definition text_line (l : list ascii) : Prop :=
  ~ In LF l /\ ~ In NUL l /\ (List.length l <= 62)%nat.

(** The line starts with an integer: what [strtol] converts. *)
Definition integer_prefix (l : list ascii) : Prop :=
  exists ws sg ds rest,
    l = ws ++ sg ++ ds ++ rest /\
    forallb isspace ws = true /\
    (sg = [] \/ sg = ["+"%char] \/ sg = ["-"%char]) /\
    ds <> [] /\ forallb isdigit ds = true.

(** The three ways an attempt fails, each with its diagnostic. *)
Inductive rejected (min max : Z) (l : list ascii) : string -> Prop :=
| no_integer :
    ~ integer_prefix l -> rejected min max l msg_not_integer
| trailing_text :
    integer_prefix l -> (forall x, ~ line_value l x) ->
    rejected min max l msg_unexpected
| out_of_range x :
    line_value l x -> ~ (min <= x <= max) ->
    rejected min max l (msg_range min max).

Definition invalid_line (min max : Z) (l : list ascii) : Prop :=
  forall x, line_value l x -> ~ (min <= x <= max).

(** A line of 64 characters: [5], sixty-two spaces, [x]. *)
Definition overlong_line : list ascii :=
  "5"%char :: repeat " "%char 62 ++ ["x"%char].

(** Whether the reply to "Save this result?" starts with [y] or [Y]. *)
Definition confirms (w : world) : bool :=
  match stdin w with
  | c :: _ => Ascii.eqb c "y" || Ascii.eqb c "Y"
  | [] => false
  end.

(** The bands of [(b1, b2, m)] decode back to [(b1, b2, m)]. *)
Definition round_trip_ok {D : Type} {ops : DoubleOps D} (b1 b2 m : Z) : bool :=
  match rcc_color_to_resistance b1 b2 m with
  | Defined r =>
      match rcc_resistance_to_color r with
      | Defined b => (d1 b =? b1) && (d2 b =? b2) && (m_exp b =? m)
      | Undefined _ => false
      end
  | Undefined _ => false
  end.

(** How [read_int] leaves the world: the log is untouched, the output is
    extended, and a prefix of the input is consumed. *)
Definition frames (w w' : world) : Prop :=
  log_file w' = log_file w /\ log_openable w' = log_openable w /\
  (exists out, stdout w' = stdout w ++ out) /\
  (exists used, stdin w = used ++ stdin w').

(** * Part III: proofs *)

(** ** The bounded loops are the [while] loops *)

Section WhileFacts.

Context {S : Type} (cond : S -> bool) (body : S -> S).

Lemma while_loop_inv (P : S -> Prop) :
  (forall s, P s -> cond s = true -> P (body s)) ->
  forall n s, P s -> P (while_loop n cond body s).
Proof.
  intros step n; induction n as [|n IH]; intros s Ps; simpl; auto.
  destruct (cond s) eqn:E; auto.
Qed.

Lemma while_loop_exit (mu : S -> nat) :
  (forall s, cond s = true -> (mu (body s) < mu s)%nat) ->
  forall n s, (mu s <= n)%nat -> cond (while_loop n cond body s) = false.
Proof.
  intros dec n; induction n as [|n IH]; intros s Hs; simpl.
  - destruct (cond s) eqn:E; auto.
    specialize (dec s E); lia.
  - destruct (cond s) eqn:E; auto.
    apply IH. specialize (dec s E); lia.
Qed.

Lemma while_loop_sound n s :
  cond (while_loop n cond body s) = false ->
  while_rel cond body s (while_loop n cond body s).
Proof.
  revert s; induction n as [|n IH]; intros s; simpl.
  - intros E; now apply while_done.
  - destruct (cond s) eqn:E.
    + intros E'; apply while_step; auto.
    + intros _; now apply while_done.
Qed.

Lemma while_rel_deterministic s s1 s2 :
  while_rel cond body s s1 -> while_rel cond body s s2 -> s1 = s2.
Proof.
  intros H1; revert s2; induction H1 as [s E|s s' E _ IH]; intros s2 H2.
  - inversion H2; subst; auto; congruence.
  - inversion H2; subst; [congruence | auto].
Qed.

End WhileFacts.

Section NormalizeFacts.

Context {D : Type} {ops : DoubleOps D}.

Lemma scale_down_exponent (R : D) :
  0 <= snd (while_loop 9 scale_down_cond scale_down_body (R, 0)) <= 9.
Proof.
  apply (while_loop_inv _ _ (fun s => 0 <= snd s <= 9)); [|cbn [snd]; lia].
  intros [b m]; unfold scale_down_cond, scale_down_body; cbn [fst snd].
  rewrite andb_true_iff, Z.ltb_lt; lia.
Qed.

Lemma scale_down_is_while (R : D) :
  while_rel scale_down_cond scale_down_body (R, 0)
            (while_loop 9 scale_down_cond scale_down_body (R, 0)).
Proof.
  apply while_loop_sound.
  apply (while_loop_exit _ _ (fun s => Z.to_nat (9 - snd s)));
    [|unfold snd; lia].
  intros [b m]; unfold scale_down_cond, scale_down_body; cbn [fst snd].
  rewrite andb_true_iff, Z.ltb_lt; lia.
Qed.

Lemma scale_up_is_while (s : D * Z) :
  snd s <= 9 ->
  while_rel scale_up_cond scale_up_body s
            (while_loop 9 scale_up_cond scale_up_body s).
Proof.
  intros Hs; apply while_loop_sound.
  apply (while_loop_exit _ _ (fun s => Z.to_nat (snd s))); [|lia].
  intros [b m]; unfold scale_up_cond, scale_up_body; cbn [fst snd].
  rewrite andb_true_iff, Z.ltb_lt; lia.
Qed.

Lemma scale_up_exponent (s : D * Z) :
  0 <= snd s <= 9 ->
  0 <= snd (while_loop 9 scale_up_cond scale_up_body s) <= 9.
Proof.
  apply (while_loop_inv _ _ (fun s => 0 <= snd s <= 9)).
  intros [b m]; unfold scale_up_cond, scale_up_body; cbn [fst snd].
  rewrite andb_true_iff, Z.ltb_lt; lia.
Qed.

(** [normalize] computes exactly what the two [while] statements do, and
    leaves the exponent in [0, 9]. *)
Lemma normalize_is_while (R : D) :
  exists s1,
    while_rel scale_down_cond scale_down_body (R, 0) s1 /\
    while_rel scale_up_cond scale_up_body s1 (normalize R).
Proof.
  exists (while_loop 9 scale_down_cond scale_down_body (R, 0)); split.
  - apply scale_down_is_while.
  - apply scale_up_is_while. apply scale_down_exponent.
Qed.

Lemma normalize_exponent (R : D) : 0 <= snd (normalize R) <= 9.
Proof. apply scale_up_exponent, scale_down_exponent. Qed.

End NormalizeFacts.

(** ** The decoder over exact arithmetic *)

Section ExactDecoder.

Local Open Scope Q_scope.

Local Notation "'decodeQ'" := (@rcc_resistance_to_color Q Q_double).
Local Notation "'normalizeQ'" := (@normalize Q Q_double).
Local Notation "'downQ'" :=
  (while_loop 9 (@scale_down_cond Q Q_double) (@scale_down_body Q Q_double)).

Lemma while_loop_skip {S : Type} (cond : S -> bool) (body : S -> S) n s :
  cond s = false -> while_loop n cond body s = s.
Proof. intros E; destruct n; simpl; [|rewrite E]; reflexivity. Qed.

Lemma scale_down_normalized (R : Q) :
  0 < R -> normalized R (downQ (R, 0%Z)).
Proof.
  intros HR.
  apply (while_loop_inv _ _ (normalized R)).
  - intros [b m] [Hp He Hv Hl]; cbn [fst snd] in *.
    unfold scale_down_cond, scale_down_body; cbn [fst snd dge dof_int ddiv Q_double].
    rewrite andb_true_iff, Z.ltb_lt, Qle_bool_iff.
    change (inject_Z 100) with 100; change (inject_Z 10) with 10.
    intros [Hb Hm]; split; cbn [fst snd].
    + apply Qlt_shift_div_l; lra.
    + lia.
    + rewrite Z.pow_add_r by lia. rewrite inject_Z_mult.
      change (inject_Z (10 ^ 1)) with 10. rewrite <- Hv. field.
    + right. apply Qle_shift_div_l; lra.
  - split; cbn [fst snd]; [assumption | lia | | now left].
    change (inject_Z (10 ^ 0)) with 1. ring.
Qed.

(** After the first loop the second one has nothing to do: either no
    division took place ([m = 0]) or the last division left [base >= 10]. *)
Lemma scale_up_never_runs (R : Q) :
  0 < R -> normalizeQ R = downQ (R, 0%Z).
Proof.
  intros HR. unfold normalize.
  apply while_loop_skip.
  destruct (scale_down_normalized R HR) as [_ _ _ Hl].
  unfold scale_up_cond; cbn [dlt dof_int Q_double].
  change (inject_Z 10) with 10.
  destruct Hl as [Hm | Hb].
  - rewrite Hm. apply andb_false_r.
  - apply Qle_bool_iff in Hb. rewrite Hb. reflexivity.
Qed.

Lemma normalize_normalized (R : Q) : 0 < R -> normalized R (normalizeQ R).
Proof.
  intros HR. rewrite scale_up_never_runs by assumption.
  now apply scale_down_normalized.
Qed.

(** At the exit of the first loop the base is below 100 unless the
    exponent has reached its cap. *)
Lemma normalize_exit (R : Q) :
  0 < R -> fst (normalizeQ R) < 100 \/ snd (normalizeQ R) = 9%Z.
Proof.
  intros HR. rewrite scale_up_never_runs by assumption.
  pose proof (scale_down_exponent (ops := Q_double) R) as E.
  assert (X : @scale_down_cond Q Q_double (downQ (R, 0%Z)) = false).
  { apply (while_loop_exit _ _ (fun s => Z.to_nat (9 - snd s)));
      [|unfold snd; lia].
    intros [b m]; unfold scale_down_cond, scale_down_body; cbn [fst snd].
    rewrite andb_true_iff, Z.ltb_lt; lia. }
  revert X E. generalize (downQ (R, 0%Z)). intros s X E.
  unfold scale_down_cond in X; cbn [dge dof_int Q_double] in X.
  change (inject_Z 100) with 100 in X.
  apply andb_false_iff in X. destruct X as [X | X].
  - left. apply Qnot_le_lt. intros H. apply Qle_bool_iff in H. congruence.
  - right. apply Z.ltb_ge in X. lia.
Qed.

Lemma spec_decode_by_normalize (R : Q) (a b c : Z) :
  spec_round_carry (normalizeQ R) = (a, b, c) -> spec_decode R a b c.
Proof.
  intros E. destruct (normalize_is_while (ops := Q_double) R) as (s1 & W1 & W2).
  exists s1, (normalizeQ R). repeat split; [exact W1 | exact W2 | exact E].
Qed.

Lemma spec_decode_unique (R : Q) (a b c a' b' c' : Z) :
  spec_decode R a b c -> spec_decode R a' b' c' -> (a, b, c) = (a', b', c').
Proof.
  intros (s1 & s2 & W1 & W2 & E) (t1 & t2 & V1 & V2 & F).
  pose proof (while_rel_deterministic _ _ _ _ _ W1 V1) as ->.
  pose proof (while_rel_deterministic _ _ _ _ _ W2 V2) as ->.
  congruence.
Qed.

(** *** Rounding: [(int)(base + 0.5)] against [floor (base + 0.5)] *)

Lemma Q_to_int_floor (x : Q) :
  0 <= x -> (Qfloor x <= INT_MAX)%Z -> Q_to_int x = Defined (Qfloor x).
Proof.
  intros Hx Hmax. unfold Q_to_int.
  assert (Hq : Z.quot (Qnum x) (Zpos (Qden x)) = Qfloor x).
  { destruct x as [n d]; cbn [Qnum Qden Qfloor].
    apply Z.quot_div_nonneg; [|lia].
    unfold Qle in Hx; cbn in Hx. lia. }
  rewrite Hq. unfold in_int.
  assert (0 <= Qfloor x)%Z.
  { change 0%Z with (Qfloor 0). now apply Qfloor_resp_le. }
  replace (INT_MIN <=? Qfloor x)%Z with true
    by (symmetry; apply Z.leb_le; unfold INT_MIN; lia).
  replace (Qfloor x <=? INT_MAX)%Z with true by (symmetry; now apply Z.leb_le).
  reflexivity.
Qed.

Lemma Q_to_int_overflow (x : Q) :
  0 <= x -> (INT_MAX < Qfloor x)%Z ->
  Q_to_int x = Undefined IntConversionOutOfRange.
Proof.
  intros Hx Hmax. unfold Q_to_int.
  assert (Hq : Z.quot (Qnum x) (Zpos (Qden x)) = Qfloor x).
  { destruct x as [n d]; cbn [Qnum Qden Qfloor].
    apply Z.quot_div_nonneg; [|lia].
    unfold Qle in Hx; cbn in Hx. lia. }
  rewrite Hq. unfold in_int.
  replace (Qfloor x <=? INT_MAX)%Z with false
    by (symmetry; apply Z.leb_gt; lia).
  now rewrite andb_false_r.
Qed.

Lemma Qfloor_below (x : Q) (n : Z) : x < inject_Z n -> (Qfloor x < n)%Z.
Proof.
  intros H. pose proof (Qfloor_le x) as L.
  rewrite Zlt_Qlt. lra.
Qed.

Lemma Qfloor_above (x : Q) (n : Z) : inject_Z n <= x -> (n <= Qfloor x)%Z.
Proof.
  intros H. rewrite <- (Qfloor_Z n). now apply Qfloor_resp_le.
Qed.

(** *** Table accesses *)

Lemma index_defined {A : Type} (table : list A) (i : Z) :
  (0 <= i < Z.of_nat (List.length table))%Z -> exists a, index table i = Defined a.
Proof.
  intros Hi. unfold index.
  replace (i <? 0)%Z with false by (symmetry; apply Z.ltb_ge; lia).
  destruct (nth_error table (Z.to_nat i)) as [a|] eqn:E; [now exists a|].
  apply nth_error_None in E. lia.
Qed.

Lemma index_in_bounds {A : Type} (table : list A) (i : Z) (a : A) :
  index table i = Defined a -> (0 <= i < Z.of_nat (List.length table))%Z.
Proof.
  unfold index. destruct (i <? 0)%Z eqn:E; [discriminate|].
  apply Z.ltb_ge in E.
  destruct (nth_error table (Z.to_nat i)) as [x|] eqn:N; [|discriminate].
  intros _. assert (Z.to_nat i < List.length table)%nat; [|lia].
  apply nth_error_Some. congruence.
Qed.

(** Case analysis on an exponent [m] known to lie in [0, 9], turning the
    power of ten in [Hv : base * 10^m == R] into a numeral. *)
Ltac exponent_cases He Hv :=
  match type of He with
  | (0 <= ?m <= 9)%Z =>
      let C := fresh "C" in
      assert (C : (m = 0 \/ m = 1 \/ m = 2 \/ m = 3 \/ m = 4 \/ m = 5 \/
                   m = 6 \/ m = 7 \/ m = 8 \/ m = 9)%Z) by lia;
      repeat (destruct C as [C | C]);
      rewrite C in *;
      match type of Hv with
      | context [inject_Z (10 ^ ?k)] =>
          let v := eval vm_compute in (inject_Z (10 ^ k)) in
          change (inject_Z (10 ^ k)) with v in Hv
      end
  end.

Lemma normalize_base_below (R : Q) :
  0 < R -> R < decoder_limit -> fst (normalizeQ R) + (1 # 2) < 2147483648.
Proof.
  intros HR Hlim.
  destruct (normalize_normalized R HR) as [Hp He Hv _].
  destruct (normalize_exit R HR) as [Hb | Hm]; [lra|].
  rewrite Hm in Hv. change (inject_Z (10 ^ 9)) with 1000000000 in Hv.
  unfold decoder_limit in Hlim. lra.
Qed.

Lemma normalize_base_above (R : Q) :
  decoder_limit <= R -> 2147483648 <= fst (normalizeQ R) + (1 # 2).
Proof.
  intros Hlim. unfold decoder_limit in Hlim.
  assert (HR : 0 < R) by lra.
  destruct (normalize_normalized R HR) as [Hp He Hv _].
  destruct (normalize_exit R HR) as [Hb | H9].
  - exponent_cases He Hv; lra.
  - rewrite H9 in Hv. change (inject_Z (10 ^ 9)) with 1000000000 in Hv. lra.
Qed.

Lemma decode_in_range (R : Q) :
  0 < R -> R < decoder_limit ->
  exists b, decodeQ R = Defined b /\
            spec_round_carry (normalizeQ R) = (d1 b, d2 b, m_exp b) /\
            (0 <= d1 b <= 9)%Z /\ (0 <= d2 b <= 9)%Z /\ (0 <= m_exp b <= 10)%Z.
Proof.
  intros HR Hlim.
  pose proof (normalize_base_below R HR Hlim) as Hb.
  destruct (normalize_normalized R HR) as [Hp He _ _].
  unfold rcc_resistance_to_color, spec_round_carry.
  destruct (normalizeQ R) as [base m]; cbn [fst snd] in *.
  cbn [dto_int dadd dlit Q_double].
  assert (H0 : (0 <= Qfloor (base + (1 # 2)))%Z)
    by (apply Qfloor_above; change (inject_Z 0) with 0; lra).
  assert (H1 : (Qfloor (base + (1 # 2)) < 2147483648)%Z)
    by (apply Qfloor_below; change (inject_Z 2147483648) with 2147483648; lra).
  rewrite Q_to_int_floor by (try lra; unfold INT_MAX; lia).
  cbn [cbind].
  generalize dependent (Qfloor (base + (1 # 2))). intros r H0 H1.
  destruct (100 <=? r)%Z eqn:C.
  - destruct (index_defined multiplier_color_names (m + 1)) as [b3 E3];
      [cbn [List.length multiplier_color_names]; lia|].
    change (Z.quot 10 10) with 1%Z. change (Z.rem 10 10) with 0%Z.
    change (index digit_color_names 1) with (Defined "1 Brown"%string).
    change (index digit_color_names 0) with (Defined "0 Black"%string).
    cbn [cbind]. rewrite E3. cbn [cbind].
    eexists; split; [reflexivity|]. cbn [d1 d2 m_exp].
    repeat split; lia.
  - apply Z.leb_gt in C.
    rewrite (Z.quot_div_nonneg r 10), (Z.rem_mod_nonneg r 10) by lia.
    destruct (index_defined digit_color_names (r / 10)) as [b1 E1];
      [cbn [List.length digit_color_names]; Z.div_mod_to_equations; lia|].
    destruct (index_defined digit_color_names (r mod 10)) as [b2 E2];
      [cbn [List.length digit_color_names]; Z.div_mod_to_equations; lia|].
    destruct (index_defined multiplier_color_names m) as [b3 E3];
      [cbn [List.length multiplier_color_names]; lia|].
    rewrite E1, E2, E3. cbn [cbind].
    eexists; split; [reflexivity|]. cbn [d1 d2 m_exp].
    repeat split; try lia; Z.div_mod_to_equations; lia.
Qed.

(** Below the limit the code computes the specification's algorithm. *)
Lemma decoder_refines_spec_in_range (R : Q) :
  0 < R -> R < decoder_limit ->
  exists b, decodeQ R = Defined b /\ spec_decode R (d1 b) (d2 b) (m_exp b).
Proof.
  intros HR Hlim.
  destruct (decode_in_range R HR Hlim) as (b & Hb & Hs & _).
  exists b; split; [exact Hb|]. now apply spec_decode_by_normalize.
Qed.

(** From the limit on, the conversion to [int] is undefined. *)
Lemma decode_beyond_limit (R : Q) :
  decoder_limit <= R -> decodeQ R = Undefined IntConversionOutOfRange.
Proof.
  intros Hlim.
  pose proof (normalize_base_above R Hlim) as Hb.
  unfold rcc_resistance_to_color.
  destruct (normalizeQ R) as [base m]; cbn [fst snd] in *.
  cbn [dto_int dadd dlit Q_double].
  rewrite Q_to_int_overflow; [reflexivity | lra |].
  assert (2147483648 <= Qfloor (base + (1 # 2)))%Z
    by (apply Qfloor_above; change (inject_Z 2147483648) with 2147483648; lra).
  unfold INT_MAX; lia.
Qed.

(** *** Where the exponent cap holds

    The loops never take the exponent past 9; the carry does, exactly for
    the resistances from 99.5e9 on. *)

Lemma decode_exponent_within_cap (R : Q) (b : bands) :
  0 < R -> R < 99500000000 -> decodeQ R = Defined b -> (m_exp b <= 9)%Z.
Proof.
  intros HR Hlt Hb.
  assert (Hlim : R < decoder_limit) by (unfold decoder_limit; lra).
  destruct (decode_in_range R HR Hlim) as (b' & Hb' & Hs & _).
  assert (b' = b) by congruence. subst b'.
  destruct (normalize_normalized R HR) as [Hp He Hv _].
  unfold spec_round_carry in Hs.
  destruct (normalizeQ R) as [base m]; cbn [fst snd] in *.
  destruct (100 <=? Qfloor (base + (1 # 2)))%Z eqn:C;
    injection Hs as _ _ <-; [|lia].
  apply Z.leb_le in C.
  assert (m <> 9%Z); [|lia].
  intros ->. change (inject_Z (10 ^ 9)) with 1000000000 in Hv.
  assert (Qfloor (base + (1 # 2)) < 100)%Z; [|lia].
  apply Qfloor_below. change (inject_Z 100) with 100. lra.
Qed.

Lemma decode_exponent_past_cap (R : Q) (b : bands) :
  99500000000 <= R -> decodeQ R = Defined b -> m_exp b = 10%Z.
Proof.
  intros Hge Hb.
  assert (HR : 0 < R) by lra.
  destruct (Qlt_le_dec R decoder_limit) as [Hlim | Hlim];
    [|rewrite decode_beyond_limit in Hb by assumption; discriminate].
  destruct (decode_in_range R HR Hlim) as (b' & Hb' & Hs & _).
  assert (b' = b) by congruence. subst b'.
  destruct (normalize_normalized R HR) as [Hp He Hv _].
  pose proof (normalize_exit R HR) as Hx.
  unfold spec_round_carry in Hs.
  destruct (normalizeQ R) as [base m]; cbn [fst snd] in *.
  assert (Hm : m = 9%Z).
  { destruct Hx as [Hx | Hx]; [|exact Hx].
    exponent_cases He Hv; try reflexivity; lra. }
  subst m. change (inject_Z (10 ^ 9)) with 1000000000 in Hv.
  assert (C : (100 <= Qfloor (base + (1 # 2)))%Z)
    by (apply Qfloor_above; change (inject_Z 100) with 100; lra).
  apply Z.leb_le in C. rewrite C in Hs. now injection Hs as _ _ <-.
Qed.

(** No positive resistance indexes a table out of bounds: when the decoder
    is defined its indices are inside the tables, and the only undefined
    behaviour it can run into is the conversion to [int]. *)
Lemma decode_indices (R : Q) (b : bands) :
  0 < R -> decodeQ R = Defined b ->
  (0 <= d1 b <= 9)%Z /\ (0 <= d2 b <= 9)%Z /\ (0 <= m_exp b <= 10)%Z.
Proof.
  intros HR Hb.
  destruct (Qlt_le_dec R decoder_limit) as [Hlim | Hlim].
  - destruct (decode_in_range R HR Hlim) as (b' & Hb' & _ & H).
    congruence.
  - rewrite decode_beyond_limit in Hb by assumption. discriminate.
Qed.

End ExactDecoder.

(** ** Facts about the scanners *)

Section Scanners.

Lemma skip_space_app (ws x : list ascii) :
  forallb isspace ws = true -> isspace (deref x) = false ->
  skip_space (ws ++ x) = x.
Proof.
  intros Hws Hx. induction ws as [|c ws IH]; cbn [app].
  - destruct x as [|c t]; [reflexivity|]. cbn in Hx |- *. now rewrite Hx.
  - cbn in Hws. apply andb_true_iff in Hws as [Hc Hws].
    cbn [skip_space]. rewrite Hc. auto.
Qed.

Lemma skip_space_split (s : list ascii) :
  exists ws, s = ws ++ skip_space s /\ forallb isspace ws = true /\
             isspace (deref (skip_space s)) = false.
Proof.
  induction s as [|c t (ws & E & F & G)].
  - exists []. repeat split.
  - cbn [skip_space]. destruct (isspace c) eqn:C.
    + exists (c :: ws). cbn. rewrite C, F. repeat split; auto.
      now f_equal.
    + exists []. repeat split. exact C.
Qed.

Lemma skip_blank_app (bs x : list ascii) :
  forallb isblank bs = true -> isblank (deref x) = false ->
  skip_blank (bs ++ x) = x.
Proof.
  intros Hbs Hx. induction bs as [|c bs IH]; cbn [app].
  - destruct x as [|c t]; [reflexivity|]. cbn in Hx |- *. now rewrite Hx.
  - cbn in Hbs. apply andb_true_iff in Hbs as [Hc Hbs].
    cbn [skip_blank]. rewrite Hc. auto.
Qed.

Lemma skip_blank_split (s : list ascii) :
  exists bs, s = bs ++ skip_blank s /\ forallb isblank bs = true.
Proof.
  induction s as [|c t (bs & E & F)].
  - exists []. repeat split.
  - cbn [skip_blank]. destruct (isblank c) eqn:C.
    + exists (c :: bs). cbn. rewrite C, F. split; auto. now f_equal.
    + exists []. repeat split.
Qed.

Lemma strtol_digits_app (ds x : list ascii) (acc : Z) :
  forallb isdigit ds = true -> isdigit (deref x) = false ->
  strtol_digits acc (ds ++ x)
  = (fold_left (fun a c => (a * 10 + digit_value c)%Z) ds acc, x).
Proof.
  intros Hds Hx. revert acc. induction ds as [|c ds IH]; intros acc; cbn [app].
  - destruct x as [|c t]; [reflexivity|]. cbn in Hx |- *. now rewrite Hx.
  - cbn in Hds. apply andb_true_iff in Hds as [Hc Hds].
    cbn [strtol_digits fold_left]. rewrite Hc. auto.
Qed.

Lemma strtol_digits_split (s : list ascii) (acc : Z) :
  exists ds, s = ds ++ snd (strtol_digits acc s) /\
             forallb isdigit ds = true /\
             fst (strtol_digits acc s)
             = fold_left (fun a c => (a * 10 + digit_value c)%Z) ds acc /\
             isdigit (deref (snd (strtol_digits acc s))) = false.
Proof.
  revert acc. induction s as [|c t IH]; intros acc.
  - exists []. repeat split.
  - cbn [strtol_digits]. destruct (isdigit c) eqn:C.
    + destruct (IH (acc * 10 + digit_value c)%Z) as (ds & E & F & G & H).
      exists (c :: ds). cbn. rewrite C, F. repeat split; auto.
      now f_equal.
    + exists []. repeat split. exact C.
Qed.

End Scanners.

(** ** One attempt of [read_int] against the line grammar *)

Section Attempt.

Lemma digit_classes (c : ascii) :
  isdigit c = true ->
  isspace c = false /\ isblank c = false /\
  Ascii.eqb c "-" = false /\ Ascii.eqb c "+" = false /\ c <> NUL.
Proof.
  destruct c as [[] [] [] [] [] [] [] []]; vm_compute; intros H;
    try discriminate H; repeat split; discriminate.
Qed.

Lemma blank_classes (c : ascii) :
  isblank c = true -> isdigit c = false /\ c <> LF /\ c <> NUL.
Proof.
  destruct c as [[] [] [] [] [] [] [] []]; vm_compute; intros H;
    try discriminate H; repeat split; discriminate.
Qed.

Lemma deref_cons (s : list ascii) (c : ascii) :
  deref s = c -> c <> NUL -> s = c :: tl s.
Proof. destruct s; cbn; intros; subst; [contradiction | reflexivity]. Qed.

Lemma clamp_long_int (z : Z) :
  INT_MIN <= clamp_long z <= INT_MAX -> clamp_long z = z.
Proof. unfold clamp_long, INT_MIN, INT_MAX, LONG_MIN, LONG_MAX. lia. Qed.

Lemma clamp_long_small (z : Z) :
  INT_MIN <= z <= INT_MAX -> clamp_long z = z.
Proof. unfold clamp_long, INT_MIN, INT_MAX, LONG_MIN, LONG_MAX. lia. Qed.

Lemma int_of_long_small (z : Z) :
  INT_MIN <= z <= INT_MAX -> int_of_long z = z.
Proof.
  unfold int_of_long, INT_MIN, INT_MAX. intros H.
  rewrite Z.mod_small; lia.
Qed.

(** On a line of the grammar the scanner finds the value, and only the
    range check remains. *)
Lemma read_int_attempt_of_line (min max : Z) (l : list ascii) (v : Z) :
  line_value l v ->
  read_int_attempt min max (l ++ [LF])
  = if (clamp_long v <? min) || (max <? clamp_long v)
    then Retry (msg_range min max)
    else Accept (int_of_long (clamp_long v)).
Proof.
  intros (ws & sg & ds & trail & El & Hws & Hsg & Hne & Hds & Htr).
  destruct ds as [|c0 ds']; [congruence|].
  assert (Hc0 : isdigit c0 = true) by (cbn in Hds; now apply andb_true_iff in Hds).
  destruct (digit_classes c0 Hc0) as (Csp & Cbl & Cm & Cp & Cn).
  assert (Htail : isdigit (deref (trail ++ [LF])) = false).
  { destruct trail as [|b t]; [reflexivity|]. cbn in Htr |- *.
    apply andb_true_iff in Htr as [Hb _]. now apply blank_classes in Hb. }
  assert (Hblank : skip_blank (trail ++ [LF]) = [LF])
    by (now apply skip_blank_app).
  assert (Hscan : strtol_digits 0 ((c0 :: ds') ++ trail ++ [LF])
                  = (decimal_value (c0 :: ds'), trail ++ [LF]))
    by (now apply strtol_digits_app).
  subst l. unfold read_int_attempt, strtol.
  repeat rewrite <- app_assoc.
  rewrite skip_space_app; [|assumption|].
  - destruct Hsg as [[-> ->] | [[-> ->] | [-> ->]]]; cbn [app deref hd tl].
    + rewrite Cm, Cp. cbn [deref hd]. rewrite Hc0.
      change (c0 :: ds' ++ trail ++ [LF]) with ((c0 :: ds') ++ trail ++ [LF]).
      rewrite Hscan, Hblank. reflexivity.
    + change (Ascii.eqb "+" "-") with false. change (Ascii.eqb "+" "+") with true.
      cbn [deref hd]. rewrite Hc0.
      change (c0 :: ds' ++ trail ++ [LF]) with ((c0 :: ds') ++ trail ++ [LF]).
      rewrite Hscan, Hblank. reflexivity.
    + change (Ascii.eqb "-" "-") with true.
      cbn [deref hd]. rewrite Hc0.
      change (c0 :: ds' ++ trail ++ [LF]) with ((c0 :: ds') ++ trail ++ [LF]).
      rewrite Hscan, Hblank. reflexivity.
  - destruct Hsg as [[-> _] | [[-> _] | [-> _]]]; cbn [app deref hd];
      [exact Csp | reflexivity | reflexivity].
Qed.

Lemma newline_ends_line (l p q : list ascii) :
  ~ In LF l -> l ++ [LF] = p ++ LF :: q -> l = p /\ q = [].
Proof.
  intros Hl E.
  destruct (exists_last (l := LF :: q)) as (q' & x & Eq); [discriminate|].
  destruct q' as [|y q'].
  - cbn in Eq. injection Eq as <- ->.
    split; [|reflexivity]. now apply app_inj_tail in E.
  - cbn in Eq. injection Eq as <- ->.
    rewrite app_comm_cons, app_assoc in E.
    apply app_inj_tail in E as [E _]. exfalso; apply Hl.
    rewrite E. apply in_or_app; right. now left.
Qed.

Lemma last_in_suffix (l p q : list ascii) (x : ascii) :
  q <> [] -> l ++ [x] = p ++ q -> In x q.
Proof.
  intros Hq E.
  destruct (exists_last Hq) as (q' & y & ->).
  rewrite app_assoc in E. apply app_inj_tail in E as [_ ->].
  apply in_or_app; right; now left.
Qed.

Lemma unexpected_attempt_no_value (min max : Z) (l : list ascii) :
  read_int_attempt min max (l ++ [LF]) = Retry msg_unexpected ->
  forall x, ~ line_value l x.
Proof.
  intros A x Hx.
  rewrite (read_int_attempt_of_line min max l x Hx) in A.
  destruct (_ || _); discriminate A.
Qed.

(** What [strtol] has scanned when it converts. *)
Lemma strtol_split (buf : list ascii) (val : Z) (endptr : list ascii) :
  strtol buf = Some (val, endptr) ->
  exists ws sg ds x,
    buf = ws ++ sg ++ ds ++ endptr /\
    forallb isspace ws = true /\
    (sg = [] /\ x = decimal_value ds \/
     sg = ["+"%char] /\ x = decimal_value ds \/
     sg = ["-"%char] /\ x = - decimal_value ds) /\
    ds <> [] /\ forallb isdigit ds = true /\
    val = clamp_long x.
Proof.
  unfold strtol.
  destruct (skip_space_split buf) as (ws & Ews & Hws & _).
  set (s1 := skip_space buf) in *.
  assert (Hsign : exists sg s2 negative,
             s1 = sg ++ s2 /\
             (if Ascii.eqb (deref s1) "-" then (true, tl s1)
              else if Ascii.eqb (deref s1) "+" then (false, tl s1)
              else (false, s1)) = (negative, s2) /\
             (sg = [] /\ negative = false \/
              sg = ["+"%char] /\ negative = false \/
              sg = ["-"%char] /\ negative = true)).
  { destruct (Ascii.eqb (deref s1) "-") eqn:Em.
    - apply Ascii.eqb_eq in Em. apply deref_cons in Em; [|discriminate].
      exists ["-"%char], (tl s1), true. repeat split; auto.
    - destruct (Ascii.eqb (deref s1) "+") eqn:Ep.
      + apply Ascii.eqb_eq in Ep. apply deref_cons in Ep; [|discriminate].
        exists ["+"%char], (tl s1), false. repeat split; auto.
      + exists [], s1, false. repeat split; auto. }
  destruct Hsign as (sg & s2 & negative & Esg & -> & Hsg).
  destruct (isdigit (deref s2)) eqn:Hd; [|discriminate].
  destruct (strtol_digits_split s2 0) as (ds & Eds & Hds & Hval & Hstop).
  destruct (strtol_digits 0 s2) as [n e]; cbn [fst snd] in *.
  intros [= <- <-].
  assert (Hne : ds <> []).
  { intros ->. cbn in Eds. subst s2. congruence. }
  exists ws, sg, ds, (if negative then - n else n).
  repeat split; auto.
  - rewrite Ews, Esg, Eds at 1. reflexivity.
  - unfold decimal_value. rewrite <- Hval.
    destruct Hsg as [[-> ->] | [[-> ->] | [-> ->]]]; auto.
Qed.

(** [strtol] converts whenever the text starts with an integer. *)
Lemma strtol_of_prefix (ws sg ds rest : list ascii) :
  forallb isspace ws = true ->
  sg = [] \/ sg = ["+"%char] \/ sg = ["-"%char] ->
  ds <> [] -> forallb isdigit ds = true ->
  strtol (ws ++ sg ++ ds ++ rest) <> None.
Proof.
  intros Hws Hsg Hne Hds.
  destruct ds as [|c0 ds']; [congruence|].
  assert (Hc0 : isdigit c0 = true) by (cbn in Hds; now apply andb_true_iff in Hds).
  destruct (digit_classes c0 Hc0) as (Csp & Cbl & Cm & Cp & Cn).
  unfold strtol. rewrite skip_space_app; [|assumption|].
  - destruct Hsg as [-> | [-> | ->]]; cbn [app deref hd tl].
    + rewrite Cm, Cp. cbn [deref hd]. rewrite Hc0.
      destruct (strtol_digits 0 _); discriminate.
    + change (Ascii.eqb "+" "-") with false. change (Ascii.eqb "+" "+") with true.
      cbn [deref hd]. rewrite Hc0. destruct (strtol_digits 0 _); discriminate.
    + change (Ascii.eqb "-" "-") with true.
      cbn [deref hd]. rewrite Hc0. destruct (strtol_digits 0 _); discriminate.
  - destruct Hsg as [-> | [-> | ->]]; cbn [app deref hd];
      [exact Csp | reflexivity | reflexivity].
Qed.

(** A conversion on a buffer [l ++ [LF]] has scanned a prefix of [l]. *)
Lemma strtol_integer_prefix (l : list ascii) (val : Z) (endptr : list ascii) :
  strtol (l ++ [LF]) = Some (val, endptr) -> integer_prefix l.
Proof.
  intros H. apply strtol_split in H
    as (ws & sg & ds & x & Ebuf & Hws & Hsg & Hne & Hds & _).
  destruct (exists_last (l := endptr)) as (e & c & ->).
  - intros ->. rewrite app_nil_r in Ebuf.
    assert (Hin : In LF ds).
    { apply (last_in_suffix l (ws ++ sg)); [assumption|].
      rewrite Ebuf. now rewrite <- app_assoc. }
    rewrite forallb_forall in Hds. specialize (Hds _ Hin). discriminate.
  - rewrite !app_assoc in Ebuf. apply app_inj_tail in Ebuf as [-> _].
    exists ws, sg, ds, e. repeat split; auto.
    + now rewrite <- !app_assoc.
    + destruct Hsg as [[-> _] | [[-> _] | [-> _]]]; auto.
Qed.

(** When only blanks separate the integer from the end of the buffer, the
    whole line is a line of the grammar. *)
Lemma strtol_whole_line (l : list ascii) (val : Z) (endptr : list ascii) :
  ~ In LF l -> ~ In NUL l ->
  strtol (l ++ [LF]) = Some (val, endptr) ->
  negb (Ascii.eqb (deref (skip_blank endptr)) LF)
  && negb (Ascii.eqb (deref (skip_blank endptr)) NUL) = false ->
  exists x, line_value l x /\ val = clamp_long x.
Proof.
  intros HLF HNUL H Hend.
  apply strtol_split in H
    as (ws & sg & ds & x & Ebuf & Hws & Hsg & Hne & Hds & Hval).
  destruct (skip_blank_split endptr) as (bs & Ebs & Hbs).
  set (e2 := skip_blank endptr) in *.
  assert (Ebuf' : l ++ [LF] = (ws ++ sg ++ ds ++ bs) ++ e2).
  { rewrite Ebuf, Ebs. now repeat rewrite <- app_assoc. }
  assert (El : l = ws ++ sg ++ ds ++ bs).
  { destruct e2 as [|c e2'].
    - exfalso. rewrite app_nil_r in Ebuf'.
      assert (Hin : In LF (ds ++ bs)).
      { apply (last_in_suffix l (ws ++ sg)).
        - destruct ds; [congruence | discriminate].
        - rewrite Ebuf'. now repeat rewrite <- app_assoc. }
      apply in_app_or in Hin as [Hin | Hin].
      + rewrite forallb_forall in Hds. specialize (Hds _ Hin). discriminate.
      + rewrite forallb_forall in Hbs. specialize (Hbs _ Hin). discriminate.
    - cbn [deref hd] in Hend.
      apply andb_false_iff in Hend as [Hend | Hend];
        apply negb_false_iff, Ascii.eqb_eq in Hend; subst c.
      + now apply newline_ends_line in Ebuf' as [-> _].
      + exfalso.
        assert (Hin : In NUL (l ++ [LF]))
          by (rewrite Ebuf'; apply in_or_app; right; now left).
        apply in_app_or in Hin as [Hin | [Hin | []]];
          [contradiction | discriminate]. }
  exists x. split; [|exact Hval].
  exists ws, sg, ds, bs. repeat split; auto.
Qed.

(** A buffer the code accepts holds a line of the grammar whose value is in
    range. *)
Lemma read_int_attempt_accept (min max : Z) (l : list ascii) (v : Z) :
  ~ In LF l -> ~ In NUL l -> INT_MIN <= min -> max <= INT_MAX ->
  read_int_attempt min max (l ++ [LF]) = Accept v ->
  line_value l v /\ min <= v <= max.
Proof.
  intros HLF HNUL Hmin Hmax. unfold read_int_attempt.
  destruct (strtol (l ++ [LF])) as [[val endptr]|] eqn:S; [|discriminate].
  destruct (negb _ && negb _) eqn:Hend; [discriminate|].
  destruct ((val <? min) || (max <? val)) eqn:Hrange; [discriminate|].
  intros [= <-].
  apply orb_false_iff in Hrange as [R1 R2]. apply Z.ltb_ge in R1, R2.
  destruct (strtol_whole_line l val endptr HLF HNUL S Hend) as (x & Hx & ->).
  assert (E : clamp_long x = x) by (apply clamp_long_int; lia).
  rewrite E in *.
  rewrite int_of_long_small by lia. split; [exact Hx | lia].
Qed.

(** A buffer the code rejects is rejected for the reason the diagnostic
    states. *)
Lemma read_int_attempt_retry (min max : Z) (l : list ascii) (d : string) :
  ~ In LF l -> ~ In NUL l -> INT_MIN <= min -> max <= INT_MAX ->
  read_int_attempt min max (l ++ [LF]) = Retry d ->
  rejected min max l d.
Proof.
  intros HLF HNUL Hmin Hmax A. pose proof A as A'. revert A.
  unfold read_int_attempt.
  destruct (strtol (l ++ [LF])) as [[val endptr]|] eqn:S.
  - destruct (negb _ && negb _) eqn:Hend.
    + intros [= <-]. apply trailing_text.
      * exact (strtol_integer_prefix l val endptr S).
      * exact (unexpected_attempt_no_value min max l A').
    + destruct ((val <? min) || (max <? val)) eqn:Hrange; [|discriminate].
      intros [= <-].
      destruct (strtol_whole_line l val endptr HLF HNUL S Hend) as (x & Hx & ->).
      apply (out_of_range min max l x Hx). intros Hr.
      rewrite clamp_long_small in Hrange by lia.
      apply orb_true_iff in Hrange as [R | R]; apply Z.ltb_lt in R; lia.
  - intros [= <-]. apply no_integer.
    intros (ws & sg & ds & rest & -> & Hws & Hsg & Hne & Hds).
    apply (strtol_of_prefix ws sg ds (rest ++ [LF]) Hws Hsg Hne Hds).
    rewrite <- S. now rewrite <- !app_assoc.
Qed.

End Attempt.

(** ** The retry loop of [read_int] *)

Section ReadInt.

Lemma read_line_text (n : nat) (l rest : list ascii) :
  ~ In LF l -> (List.length l < n)%nat ->
  read_line n (l ++ LF :: rest) = (l ++ [LF], rest).
Proof.
  revert n. induction l as [|c l IH]; intros n Hl Hn.
  - destruct n; [cbn in Hn; lia|]. reflexivity.
  - destruct n; [cbn in Hn; lia|]. cbn [app read_line].
    destruct (Ascii.eqb c LF) eqn:E.
    + apply Ascii.eqb_eq in E. exfalso; apply Hl; now left.
    + rewrite IH; [reflexivity | | cbn in Hn; lia].
      intros H; apply Hl; now right.
Qed.

Lemma read_line_rest (n : nat) (s : list ascii) :
  (List.length (snd (read_line n s)) <= List.length s)%nat.
Proof.
  revert s. induction n as [|n IH]; intros s; [cbn; lia|].
  destruct s as [|c t]; [cbn; lia|]. cbn [read_line].
  destruct (Ascii.eqb c LF); [cbn; lia|].
  specialize (IH t). destruct (read_line n t) as [b r]; cbn [snd] in *.
  cbn [List.length]. lia.
Qed.

Lemma read_line_shrinks (n : nat) (s : list ascii) :
  s <> [] ->
  (List.length (snd (read_line (S n) s)) < List.length s)%nat.
Proof.
  destruct s as [|c t]; [congruence|]. intros _. cbn [read_line].
  destruct (Ascii.eqb c LF); [cbn; lia|].
  pose proof (read_line_rest n t) as H.
  destruct (read_line n t) as [b r]; cbn [snd] in *.
  cbn [List.length]. lia.
Qed.

(** The loop never stops for want of iterations. *)
Lemma read_int_loop_total (prompt : string) (min max : Z) :
  forall fuel w, (List.length (stdin w) < fuel)%nat ->
                 read_int_loop fuel prompt min max w <> OutOfFuel.
Proof.
  induction fuel as [|fuel IH]; intros w Hw; [lia|].
  cbn [read_int_loop]. unfold fgets. cbn [stdin printf].
  destruct (stdin w) as [|c t] eqn:Es; [discriminate|].
  pose proof (read_line_shrinks 62 (c :: t)) as Hs.
  change (64 - 1)%nat with 63%nat.
  destruct (read_line 63 (c :: t)) as [buf rest]; cbn [snd] in Hs.
  destruct (read_int_attempt min max buf); [discriminate|].
  apply IH. cbn [stdin printf set_stdin].
  assert (c :: t <> []) by discriminate. specialize (Hs H). lia.
Qed.

Lemma read_int_total (prompt : string) (min max : Z) (w : world) :
  read_int prompt min max w <> OutOfFuel.
Proof. apply read_int_loop_total. lia. Qed.

(** Whatever the input, a value that [read_int] returns is in range. *)
Lemma read_int_loop_in_range (prompt : string) (min max : Z) :
  INT_MIN <= min -> max <= INT_MAX ->
  forall fuel w v w',
    read_int_loop fuel prompt min max w = Returned v w' -> min <= v <= max.
Proof.
  intros Hmin Hmax. induction fuel as [|fuel IH]; intros w v w'; [discriminate|].
  cbn [read_int_loop]. destruct (fgets 64 (printf prompt w)) as [[buf w1]|];
    [|discriminate].
  destruct (read_int_attempt min max buf) as [x|d] eqn:A; [|apply IH].
  intros [= <- <-]. revert A. unfold read_int_attempt.
  destruct (strtol buf) as [[val endptr]|]; [|discriminate].
  destruct (negb _ && negb _); [discriminate|].
  destruct ((val <? min) || (max <? val)) eqn:R; [discriminate|].
  intros [= <-]. apply orb_false_iff in R as [R1 R2].
  apply Z.ltb_ge in R1, R2. rewrite int_of_long_small; lia.
Qed.

Lemma read_int_loop_lines (prompt : string) (min max : Z) :
  INT_MIN <= min -> max <= INT_MAX ->
  forall bad good v rest,
    Forall text_line bad -> Forall (invalid_line min max) bad ->
    text_line good -> line_value good v -> min <= v <= max ->
    forall fuel w,
      stdin w = List.concat (map (fun l => l ++ [LF]) bad) ++ good ++ LF :: rest ->
      (List.length (stdin w) < fuel)%nat ->
      exists diagnostics,
        Forall2 (rejected min max) bad diagnostics /\
        read_int_loop fuel prompt min max w
        = Returned v
            {| stdin := rest;
               stdout := stdout w
                         ++ flat_map (fun d => [prompt; d]) diagnostics
                         ++ [prompt];
               log_file := log_file w;
               log_openable := log_openable w |}.
Proof.
  intros Hmin Hmax bad good v rest Hbad Hinv Hgood Hv Hr.
  induction bad as [|l bad IH]; intros fuel w Ein Hfuel.
  - exists []. split; [constructor|].
    destruct fuel as [|fuel]; [lia|].
    cbn [List.concat map app] in Ein.
    cbn [read_int_loop]. unfold fgets. cbn [stdin printf]. rewrite Ein.
    destruct Hgood as (GLF & GNUL & Glen).
    destruct (good ++ LF :: rest) eqn:E; [now destruct good|]. rewrite <- E.
    change (64 - 1)%nat with 63%nat.
    rewrite read_line_text by (auto; lia).
    rewrite (read_int_attempt_of_line min max good v Hv).
    rewrite clamp_long_small by lia.
    replace (v <? min) with false by (symmetry; apply Z.ltb_ge; lia).
    replace (max <? v) with false by (symmetry; apply Z.ltb_ge; lia).
    cbn [orb]. rewrite int_of_long_small by lia. reflexivity.
  - inversion Hbad as [|? ? Hl Hbad']; subst.
    inversion Hinv as [|? ? Hil Hinv']; subst.
    specialize (IH Hbad' Hinv').
    destruct fuel as [|fuel]; [lia|].
    cbn [List.concat map] in Ein. rewrite <- app_assoc in Ein.
    rewrite <- app_assoc in Ein. cbn [app] in Ein.
    cbn [read_int_loop]. unfold fgets. cbn [stdin printf]. rewrite Ein.
    destruct Hl as (LLF & LNUL & Llen).
    match goal with
    | |- context [l ++ LF :: ?r] =>
        destruct (l ++ LF :: r) eqn:E; [now destruct l|]; rewrite <- E
    end.
    change (64 - 1)%nat with 63%nat.
    rewrite read_line_text by (auto; lia).
    destruct (read_int_attempt min max (l ++ [LF])) as [x|d] eqn:A.
    + apply read_int_attempt_accept in A as [Hx Hxr]; auto.
      exfalso. exact (Hil x Hx Hxr).
    + match goal with
      | |- context [read_int_loop fuel prompt min max ?w1] =>
          destruct (IH fuel w1) as (ds & Hds & Eds)
      end.
      * reflexivity.
      * cbn [stdin printf set_stdin]. rewrite Ein, <- E in Hfuel.
        rewrite length_app in Hfuel. cbn [List.length] in Hfuel. lia.
      * exists (d :: ds). split.
        -- constructor; [|exact Hds].
           now apply read_int_attempt_retry in A.
        -- rewrite Eds. cbn [stdin stdout log_file log_openable printf set_stdin].
           cbn [flat_map]. f_equal. f_equal.
           repeat rewrite <- app_assoc. reflexivity.
Qed.

End ReadInt.

(** ** The properties of the specification, one by one *)

Section EncoderClaims.

Lemma encoder_table (D : Type) (ops : DoubleOps D) (b1 b2 m : Z) :
  0 <= m <= 11 ->
  rcc_color_to_resistance b1 b2 m
  = Defined (dmul (dof_int (b1 * 10 + b2)) (dlit (spec_multiplierValue m))).
Proof.
  intros Hm.
  assert (C : m = 0 \/ m = 1 \/ m = 2 \/ m = 3 \/ m = 4 \/ m = 5 \/ m = 6 \/
              m = 7 \/ m = 8 \/ m = 9 \/ m = 10 \/ m = 11) by lia.
  repeat (destruct C as [-> | C]); try subst m; reflexivity.
Qed.

Lemma binary64_products_ok :
  forallb (fun base => forallb (binary64_product_ok (Z.of_nat base)) 
                               (map Z.of_nat (seq 0 12)))
          (seq 0 100) = true.
Proof. vm_compute. reflexivity. Qed.

Lemma binary64_product_in_range (base m : Z) :
  0 <= base <= 99 -> 0 <= m <= 11 -> binary64_product_ok base m = true.
Proof.
  intros Hb Hm. pose proof binary64_products_ok as H.
  rewrite forallb_forall in H. specialize (H (Z.to_nat base)).
  rewrite Z2Nat.id in H by lia.
  assert (Hin : In (Z.to_nat base) (seq 0 100)) by (apply in_seq; lia).
  specialize (H Hin). rewrite forallb_forall in H. apply H.
  apply in_map_iff. exists (Z.to_nat m). split; [lia|]. apply in_seq; lia.
Qed.

(** C2. For digits in [0,9] and a multiplier index in [0,11] the encoder
    yields [(digit1*10 + digit2) * multiplierValue(multiplierIndex)], also
    for the gold and silver indices 10 and 11, and the result is a
    non-negative number: over the rationals, and over binary64, where it is
    moreover finite. *)
Theorem encoder_exact (digit1 digit2 multiplierIndex : Z) :
  0 <= digit1 <= 9 -> 0 <= digit2 <= 9 -> 0 <= multiplierIndex <= 11 ->
  (exists r : Q,
      rcc_color_to_resistance digit1 digit2 multiplierIndex = Defined r /\
      r = (inject_Z (digit1 * 10 + digit2)
           * spec_multiplierValue multiplierIndex)%Q /\
      (0 <= r)%Q) /\
  (exists r : float,
      rcc_color_to_resistance digit1 digit2 multiplierIndex = Defined r /\
      r = PrimFloat.mul (float_of_Z (digit1 * 10 + digit2))
                        (float_lit (spec_multiplierValue multiplierIndex)) /\
      PrimFloat.is_finite r = true /\
      PrimFloat.leb PrimFloat.zero r = true).
Proof.
  intros H1 H2 Hm. split.
  - eexists. split; [apply encoder_table; assumption|].
    split; [reflexivity|]. cbn [dmul dof_int dlit Q_double].
    apply Qmult_le_0_compat.
    + change 0%Q with (inject_Z 0). rewrite <- Zle_Qle. lia.
    + unfold spec_multiplierValue.
      destruct (multiplierIndex =? 10); [discriminate|].
      destruct (multiplierIndex =? 11); [discriminate|].
      change 0%Q with (inject_Z 0). rewrite <- Zle_Qle.
      apply Z.pow_nonneg. lia.
  - eexists. split; [apply encoder_table; assumption|].
    split; [reflexivity|]. cbn [dmul dof_int dlit binary64_double].
    pose proof (binary64_product_in_range (digit1 * 10 + digit2)
                  multiplierIndex) as H.
    unfold binary64_product_ok in H.
    apply andb_true_iff. apply H; lia.
Qed.

Lemma gold_band_encoding :
  (exists r : Q,
      rcc_color_to_resistance 4 7 10 = Defined r /\
      r = (inject_Z (4 * 10 + 7) * spec_multiplierValue 10)%Q /\
      (0 <= r)%Q) /\
  (exists r : float,
      rcc_color_to_resistance 4 7 10 = Defined r /\
      r = PrimFloat.mul (float_of_Z (4 * 10 + 7))
                        (float_lit (spec_multiplierValue 10)) /\
      PrimFloat.is_finite r = true /\
      PrimFloat.leb PrimFloat.zero r = true).
Proof. apply (encoder_exact 4 7 10); lia. Defined.

End EncoderClaims.

Section DecoderClaims.

Local Open Scope string_scope.

Local Notation "'decodeQ'" := (@rcc_resistance_to_color Q Q_double).
Local Notation "'decodeB'" := (@rcc_resistance_to_color float binary64_double).

(** C1 (the code departs from the claim).  At R = 1e19 the specification's
    algorithm gives digit1 = 1, digit2 = 0, multiplierExponent = 10, while
    the code converts 1e10 + 0.5 to [int], which is undefined; the same
    under binary64. *)
Theorem decoder_departs_from_spec_at_1e19 :
  spec_decode 10000000000000000000%Q 1 0 10 /\
  decodeQ 10000000000000000000%Q = Undefined IntConversionOutOfRange /\
  decodeB 10000000000000000000%float = Undefined IntConversionOutOfRange.
Proof.
  split; [|split].
  - apply spec_decode_by_normalize. vm_compute. reflexivity.
  - vm_compute. reflexivity.
  - vm_compute. reflexivity.
Qed.

(** C3 as stated fails: the exponent for 996 is not 3. *)
Lemma exponent_of_996_is_not_3 :
  exists b, decodeQ 996%Q = Defined b /\ m_exp b <> 3.
Proof. eexists. split; [vm_compute; reflexivity | cbn; discriminate]. Qed.

(** C3 (amended).  Decoding 996 normalizes to base 99.6 with one division,
    rounds to 100, takes the carry, and yields digit1 = 1, digit2 = 0,
    multiplierExponent = 2 (10 x 10^2 = 1000); the same under binary64. *)
Theorem carry_case_996 :
  (exists base rounded,
      normalize (D := Q) 996%Q = (base, 1) /\ (base == 996 / 10)%Q /\
      dto_int (dadd base (dlit (1 # 2))) = Defined rounded /\
      rounded = 100 /\ (100 <=? rounded)%Z = true) /\
  decodeQ 996%Q
  = Defined {| d1 := 1; d2 := 0; m_exp := 2;
               band1 := "1 Brown"; band2 := "0 Black"; band3 := "2 Red x100" |} /\
  normalize (D := float) 996%float = (0x1.8e66666666666p+6%float, 1) /\
  decodeB 996%float
  = Defined {| d1 := 1; d2 := 0; m_exp := 2;
               band1 := "1 Brown"; band2 := "0 Black"; band3 := "2 Red x100" |}.
Proof.
  split; [|repeat split; vm_compute; reflexivity].
  eexists; exists 100. repeat split; vm_compute; reflexivity.
Qed.

(** C4 (the code departs from the claim).  A resistance of 1e12 leaves the
    normalisation loops at exponent 9 with base 1000; the carry then raises
    the exponent to 10, whose table entry is the gold x0.1 band.  The
    instance the claim singles out holds: 1e9 decodes with exponent 8. *)
Theorem exponent_10_at_1e12 :
  (fst (normalize (D := Q) 1000000000000%Q) == 1000)%Q /\
  snd (normalize (D := Q) 1000000000000%Q) = 9 /\
  decodeQ 1000000000000%Q
  = Defined {| d1 := 1; d2 := 0; m_exp := 10;
               band1 := "1 Brown"; band2 := "0 Black"; band3 := "10 Gold x0.1" |} /\
  decodeB 1000000000000%float
  = Defined {| d1 := 1; d2 := 0; m_exp := 10;
               band1 := "1 Brown"; band2 := "0 Black"; band3 := "10 Gold x0.1" |} /\
  decodeQ 1000000000%Q
  = Defined {| d1 := 1; d2 := 0; m_exp := 8;
               band1 := "1 Brown"; band2 := "0 Black"; band3 := "8 Grey x100M" |} /\
  decodeB 1000000000%float
  = Defined {| d1 := 1; d2 := 0; m_exp := 8;
               band1 := "1 Brown"; band2 := "0 Black"; band3 := "8 Grey x100M" |}.
Proof. repeat split; vm_compute; reflexivity. Qed.

(** C5 as stated fails: the first digit for 1.0 is not 1. *)
Lemma digits_of_1_are_not_1_0 :
  exists b, decodeQ 1%Q = Defined b /\ d1 b <> 1 /\ d2 b <> 0.
Proof. eexists. split; [vm_compute; reflexivity | cbn; split; discriminate]. Qed.

(** C5 (amended).  Decoding 1.0 yields digit1 = 0, digit2 = 1,
    multiplierExponent = 0: neither loop runs and 1.5 truncates to 1. *)
Theorem boundary_case_1 :
  normalize (D := Q) 1%Q = (1%Q, 0) /\
  decodeQ 1%Q
  = Defined {| d1 := 0; d2 := 1; m_exp := 0;
               band1 := "0 Black"; band2 := "1 Brown"; band3 := "0 Black x1" |} /\
  decodeB 1%float
  = Defined {| d1 := 0; d2 := 1; m_exp := 0;
               band1 := "0 Black"; band2 := "1 Brown"; band3 := "0 Black x1" |}.
Proof. repeat split; vm_compute; reflexivity. Qed.

(** C8.  Decoding 4700 yields digit1 = 4, digit2 = 7, multiplierExponent = 2
    and encoding (4, 7, 2) yields exactly 4700, over the rationals and over
    binary64. *)
Theorem round_trip_4700 :
  decodeQ 4700%Q
  = Defined {| d1 := 4; d2 := 7; m_exp := 2;
               band1 := "4 Yellow"; band2 := "7 Violet"; band3 := "2 Red x100" |} /\
  rcc_color_to_resistance (D := Q) 4 7 2 = Defined 4700%Q /\
  decodeB 4700%float
  = Defined {| d1 := 4; d2 := 7; m_exp := 2;
               band1 := "4 Yellow"; band2 := "7 Violet"; band3 := "2 Red x100" |} /\
  rcc_color_to_resistance (D := float) 4 7 2 = Defined 4700%float.
Proof. repeat split; vm_compute; reflexivity. Qed.

(** C10 (the code departs from the claim).  At R = 1e19 the loops stop at
    the exponent cap with base 1e10; [(int)(1e10 + 0.5)] does not fit an
    [int], so the indices [d1], [d2] used on [digit_color_names] are not
    defined. *)
Theorem indices_undefined_at_1e19 :
  (fst (normalize (D := Q) 10000000000000000000%Q) == 10000000000)%Q /\
  snd (normalize (D := Q) 10000000000000000000%Q) = 9 /\
  in_int 10000000000 = false /\
  dto_int (dadd (fst (normalize (D := Q) 10000000000000000000%Q)) (dlit (1 # 2)))
  = Undefined IntConversionOutOfRange /\
  decodeQ 10000000000000000000%Q = Undefined IntConversionOutOfRange /\
  normalize (D := float) 10000000000000000000%float = (10000000000%float, 9) /\
  decodeB 10000000000000000000%float = Undefined IntConversionOutOfRange.
Proof. repeat split; vm_compute; reflexivity. Qed.

End DecoderClaims.

Section FormatterClaims.

Local Open Scope string_scope.

Lemma print_resistance_value_generic (D : Type) (ops : DoubleOps D) (v : D) :
  pf_format (print_resistance_value v) = "Approx resistance: %.4g %s" ++ nl /\
  (dge (dfabs v) (dlit 1000000) = true ->
   pf_arg1 (print_resistance_value v) = ddiv v (dlit 1000000) /\
   pf_arg2 (print_resistance_value v) = "MÎ©") /\
  (dge (dfabs v) (dlit 1000000) = false -> dge (dfabs v) (dlit 1000) = true ->
   pf_arg1 (print_resistance_value v) = ddiv v (dlit 1000) /\
   pf_arg2 (print_resistance_value v) = "kÎ©") /\
  (dge (dfabs v) (dlit 1000000) = false -> dge (dfabs v) (dlit 1000) = false ->
   pf_arg1 (print_resistance_value v) = v /\
   pf_arg2 (print_resistance_value v) = "Î©").
Proof.
  unfold print_resistance_value.
  destruct (dge (dfabs v) (dlit 1000000)); [|destruct (dge (dfabs v) (dlit 1000))];
    cbn; repeat split; intros; try discriminate; reflexivity.
Qed.

(** C6.  The formatter always prints with the format [%.4g %s] and picks
    value and unit by three tiers: [|v| >= 1e6] gives [v / 1e6] and the
    mega-ohm label, else [|v| >= 1e3] gives [v / 1e3] and the kilo-ohm
    label, else [v] and the base-unit label.  This holds for every
    interpretation of [double]; over the reals the guards are the stated
    inequalities.  4700 is printed as 4.7 kilo-ohm, 999 in ohm and 2500000
    as 2.5 mega-ohm. *)
Theorem three_display_tiers :
  (forall (D : Type) (ops : DoubleOps D) (v : D),
      pf_format (print_resistance_value v) = "Approx resistance: %.4g %s" ++ nl /\
      (dge (dfabs v) (dlit 1000000) = true ->
       pf_arg1 (print_resistance_value v) = ddiv v (dlit 1000000) /\
       pf_arg2 (print_resistance_value v) = "MÎ©") /\
      (dge (dfabs v) (dlit 1000000) = false ->
       dge (dfabs v) (dlit 1000) = true ->
       pf_arg1 (print_resistance_value v) = ddiv v (dlit 1000) /\
       pf_arg2 (print_resistance_value v) = "kÎ©") /\
      (dge (dfabs v) (dlit 1000000) = false ->
       dge (dfabs v) (dlit 1000) = false ->
       pf_arg1 (print_resistance_value v) = v /\
       pf_arg2 (print_resistance_value v) = "Î©")) /\
  (forall v : Q,
      (1000000 <= Qabs v ->
       pf_arg1 (print_resistance_value v) = v / 1000000 /\
       pf_arg2 (print_resistance_value v) = "MÎ©") /\
      (1000 <= Qabs v -> Qabs v < 1000000 ->
       pf_arg1 (print_resistance_value v) = v / 1000 /\
       pf_arg2 (print_resistance_value v) = "kÎ©") /\
      (Qabs v < 1000 ->
       pf_arg1 (print_resistance_value v) = v /\
       pf_arg2 (print_resistance_value v) = "Î©"))%Q /\
  (pf_arg1 (print_resistance_value 4700%Q) == 47 # 10)%Q /\
  pf_arg2 (print_resistance_value 4700%Q) = "kÎ©" /\
  pf_arg1 (print_resistance_value 999%Q) = 999%Q /\
  pf_arg2 (print_resistance_value 999%Q) = "Î©" /\
  (pf_arg1 (print_resistance_value 2500000%Q) == 5 # 2)%Q /\
  pf_arg2 (print_resistance_value 2500000%Q) = "MÎ©" /\
  print_resistance_value 4700%float
  = {| pf_format := "Approx resistance: %.4g %s" ++ nl;
       pf_arg1 := 0x1.2cccccccccccdp+2%float; pf_arg2 := "kÎ©" |} /\
  print_resistance_value 999%float
  = {| pf_format := "Approx resistance: %.4g %s" ++ nl;
       pf_arg1 := 999%float; pf_arg2 := "Î©" |} /\
  print_resistance_value 2500000%float
  = {| pf_format := "Approx resistance: %.4g %s" ++ nl;
       pf_arg1 := 2.5%float; pf_arg2 := "MÎ©" |}.
Proof.
  split; [exact print_resistance_value_generic|].
  split; [|repeat split; vm_compute; reflexivity].
  intros v.
  destruct (print_resistance_value_generic Q Q_double v) as (_ & HM & Hk & Hb).
  cbn [dge dfabs dlit ddiv Q_double] in HM, Hk, Hb.
  assert (Hfalse : forall x y : Q, (x < y)%Q -> Qle_bool y x = false).
  { intros x y Hxy. destruct (Qle_bool y x) eqn:E; [|reflexivity].
    apply Qle_bool_iff in E. lra. }
  repeat split.
  - apply HM. now apply Qle_bool_iff.
  - apply HM. now apply Qle_bool_iff.
  - apply Hk; [now apply Hfalse | now apply Qle_bool_iff].
  - apply Hk; [now apply Hfalse | now apply Qle_bool_iff].
  - apply Hb; apply Hfalse; [lra | assumption].
  - apply Hb; apply Hfalse; [lra | assumption].
Qed.

End FormatterClaims.

Section LogClaims.

Lemma fgets_first (size : nat) (w : world) (c : ascii) (t : list ascii) :
  stdin w = c :: t ->
  exists buf w', fgets (S (S size)) w = Some (buf, w') /\ deref buf = c /\
                 stdout w' = stdout w /\ log_file w' = log_file w /\
                 log_openable w' = log_openable w.
Proof.
  intros E. unfold fgets. rewrite E.
  change (S (S size) - 1)%nat with (S size). cbn [read_line].
  destruct (Ascii.eqb c LF).
  - eexists; eexists; split; [reflexivity|]. repeat split.
  - destruct (read_line size t) as [l r].
    eexists; eexists; split; [reflexivity|]. repeat split.
Qed.

Lemma append_length (a b : string) :
  String.length (a ++ b) = (String.length a + String.length b)%nat.
Proof. induction a as [|c a IH]; cbn; [reflexivity | now rewrite IH]. Qed.

Lemma append_line_grows (log summary : string) :
  (log ++ summary ++ nl)%string <> log.
Proof.
  intros E. apply (f_equal String.length) in E.
  rewrite !append_length in E. cbn in E. lia.
Qed.

(** C9 as stated fails: the reply starts with [y], the log cannot be opened
    for appending, and the log is left unchanged. *)
Lemma unopenable_log_is_unchanged :
  confirms {| stdin := ["y"; LF]%char; stdout := [];
              log_file := "old"; log_openable := false |} = true /\
  ask_and_save "summary"
    {| stdin := ["y"; LF]%char; stdout := [];
       log_file := "old"; log_openable := false |}
  = Returned tt
      {| stdin := [];
         stdout := [msg_save_prompt; ("Could not open log file." ++ nl)%string];
         log_file := "old"; log_openable := false |}.
Proof. split; vm_compute; reflexivity. Qed.

(** C9 (amended).  [ask_and_save] always returns to its caller.  It appends
    the summary and a newline to the log if and only if the reply starts
    with [y] or [Y] and the log file can be opened for appending; on any
    other reply, at end of input, or when the file cannot be opened, the log
    is unchanged. *)
Theorem save_appends_iff_confirmed_and_openable (summary : string) (w : world) :
  exists w',
    ask_and_save summary w = Returned tt w' /\
    (log_file w' = (log_file w ++ summary ++ nl)%string
     <-> confirms w && log_openable w = true) /\
    (log_file w' = log_file w <-> confirms w && log_openable w = false).
Proof.
  assert (H : exists w',
             ask_and_save summary w = Returned tt w' /\
             log_file w'
             = if confirms w && log_openable w
               then (log_file w ++ summary ++ nl)%string
               else log_file w).
  { unfold ask_and_save, confirms.
    destruct (stdin w) as [|c t] eqn:E.
    - unfold fgets. cbn [stdin printf]. rewrite E.
      eexists; split; reflexivity.
    - destruct (fgets_first 14 (printf msg_save_prompt w) c t E)
        as (buf & w1 & F & Hc & _ & Hlog & Hopen).
      rewrite F, Hc. cbn [log_file log_openable printf] in Hlog, Hopen.
      rewrite Hopen.
      destruct (Ascii.eqb c "y" || Ascii.eqb c "Y"); cbn [andb].
      + destruct (log_openable w); eexists; (split; [reflexivity|]);
          cbn [log_file printf fprintf_log]; now rewrite Hlog.
      + eexists; split; [reflexivity|]. cbn [log_file printf]. exact Hlog. }
  destruct H as (w' & Hret & Hlog). exists w'. split; [exact Hret|].
  pose proof (append_line_grows (log_file w) summary) as Hne.
  rewrite Hlog. destruct (confirms w && log_openable w); split; split;
    intros H; try reflexivity; try discriminate H; congruence.
Qed.

End LogClaims.

Section ReadIntClaims.

Lemma rejected_attempt_invalid (min max : Z) (l : list ascii) (d : string) :
  INT_MIN <= min -> max <= INT_MAX ->
  read_int_attempt min max (l ++ [LF]) = Retry d -> invalid_line min max l.
Proof.
  intros Hmin Hmax A x Hx Hr.
  rewrite (read_int_attempt_of_line min max l x Hx) in A.
  rewrite clamp_long_small in A by lia.
  replace (x <? min) with false in A by (symmetry; apply Z.ltb_ge; lia).
  replace (max <? x) with false in A by (symmetry; apply Z.ltb_ge; lia).
  discriminate A.
Qed.

(** A line with a character that is no white space, sign or digit is no
    valid line, however the white space after the number is read. *)
Lemma stray_character_no_value (l : list ascii) (c : ascii) :
  In c l -> isspace c = false -> isdigit c = false ->
  c <> "+"%char -> c <> "-"%char ->
  forall x, ~ spec_line_value l x.
Proof.
  intros Hc Hs Hd Hp Hm x (ws & sg & ds & trail & E & Hws & Hsg & _ & Hds & Htr).
  rewrite forallb_forall in Hws, Hds, Htr.
  rewrite E in Hc.
  apply in_app_or in Hc as [Hc | Hc]; [apply Hws in Hc; congruence|].
  apply in_app_or in Hc as [Hc | Hc].
  - destruct Hsg as [[-> _] | [[-> _] | [-> _]]]; cbn in Hc; intuition.
  - apply in_app_or in Hc as [Hc | Hc];
      [apply Hds in Hc | apply Htr in Hc]; congruence.
Qed.

Lemma line_value_spec (l : list ascii) (v : Z) :
  line_value l v -> spec_line_value l v.
Proof.
  intros (ws & sg & ds & trail & E & Hws & Hsg & Hne & Hds & Htr).
  exists ws, sg, ds, trail. repeat split; auto.
  rewrite forallb_forall in *. intros c Hc. apply Htr in Hc.
  unfold isblank in Hc. unfold isspace.
  apply orb_true_iff in Hc as [Hc | Hc];
    apply Ascii.eqb_eq in Hc; subst c; reflexivity.
Qed.

(** C7.  [read_int] departs from the claim on a line longer than its
    64-byte buffer.  The first line of the input is [5], sixty-two spaces
    and [x]: it has text after the number and is no valid line, however
    white space is read; the second line holds the valid 7.  The claim has
    the first line rejected with a diagnostic and 7 returned.  [read_int]
    returns 5 from the first 63 bytes, prints no diagnostic and leaves
    the rest of the line in the input. *)
Theorem read_int_departs_from_spec_on_overlong_line :
  (forall x, ~ spec_line_value overlong_line x) /\
  spec_line_value ["7"%char] 7 /\
  read_int "Select: " 0 9
    {| stdin := overlong_line ++ [LF; "7"; LF]%char; stdout := [];
       log_file := EmptyString; log_openable := true |}
  = Returned 5
      {| stdin := ["x"; LF; "7"; LF]%char; stdout := ["Select: "%string];
         log_file := EmptyString; log_openable := true |}.
Proof.
  split; [|split].
  - apply (stray_character_no_value overlong_line "x"%char);
      try reflexivity; try discriminate.
    unfold overlong_line. right. apply in_or_app. right. left. reflexivity.
  - apply line_value_spec.
    exists [], [], ["7"%char], []. repeat split; auto. discriminate.
  - vm_compute. reflexivity.
Qed.

(** X23.  Let the input start with lines of text that each fit the 64-byte
    buffer (at most 62 characters before the newline) and hold no NUL
    byte, none of the lines in [bad] being an integer in [min, max]
    followed only by spaces and tabs, and [good] being such a line with
    value [v].  Then [read_int] returns [v] to its caller, having consumed
    exactly those lines, and having printed, for every line of [bad], the
    prompt and the diagnostic that states why the line fails ([rejected]),
    and then a last prompt. *)
Theorem returns_first_valid_line
        (prompt : string) (min max : Z) (bad : list (list ascii))
        (good : list ascii) (v : Z) (rest : list ascii) (w : world) :
  INT_MIN <= min -> max <= INT_MAX ->
  Forall text_line bad -> Forall (invalid_line min max) bad ->
  text_line good -> line_value good v -> min <= v <= max ->
  stdin w = List.concat (map (fun l => l ++ [LF]) bad) ++ good ++ LF :: rest ->
  exists diagnostics,
    Forall2 (rejected min max) bad diagnostics /\
    read_int prompt min max w
    = Returned v
        {| stdin := rest;
           stdout := stdout w
                     ++ flat_map (fun d => [prompt; d]) diagnostics
                     ++ [prompt];
           log_file := log_file w;
           log_openable := log_openable w |}.
Proof.
  intros Hmin Hmax Hbad Hinv Hgood Hv Hr Ein.
  apply (read_int_loop_lines prompt min max Hmin Hmax bad good v rest);
    auto.
Qed.

(** The lines "abc", "15", "5" with range [0, 9]: two rejections, then 5. *)
Lemma reads_5_after_abc_and_15 :
  exists diagnostics,
    Forall2 (rejected 0 9)
            [["a"; "b"; "c"]; ["1"; "5"]]%char diagnostics /\
    read_int "Select: " 0 9
      {| stdin := ["a"; "b"; "c"; LF; "1"; "5"; LF; "5"; LF]%char;
         stdout := []; log_file := EmptyString; log_openable := true |}
    = Returned 5
        {| stdin := [];
           stdout := [] ++ flat_map (fun d => ["Select: "%string; d]) diagnostics
                        ++ ["Select: "%string];
           log_file := EmptyString; log_openable := true |}.
Proof.
  apply (returns_first_valid_line "Select: " 0 9
           [["a"; "b"; "c"]; ["1"; "5"]]%char ["5"%char] 5 []
           {| stdin := ["a"; "b"; "c"; LF; "1"; "5"; LF; "5"; LF]%char;
              stdout := []; log_file := EmptyString; log_openable := true |}).
  - unfold INT_MIN; lia.
  - unfold INT_MAX; lia.
  - repeat constructor; cbn; intuition (try discriminate; try lia).
  - repeat constructor.
    + apply (rejected_attempt_invalid 0 9 _ msg_not_integer);
        [unfold INT_MIN; lia | unfold INT_MAX; lia | vm_compute; reflexivity].
    + apply (rejected_attempt_invalid 0 9 _ (msg_range 0 9));
        [unfold INT_MIN; lia | unfold INT_MAX; lia | vm_compute; reflexivity].
  - repeat constructor; cbn; intuition (try discriminate; try lia).
  - exists [], [], ["5"%char], []. repeat split; auto. discriminate.
  - lia.
  - reflexivity.
Defined.

(** The same run, with the text it prints. *)
Example read_int_abc_15_5_trace :
  read_int "Select: " 0 9
    {| stdin := ["a"; "b"; "c"; LF; "1"; "5"; LF; "5"; LF]%char;
       stdout := []; log_file := EmptyString; log_openable := true |}
  = Returned 5
      {| stdin := [];
         stdout := ["Select: "%string; msg_not_integer;
                    "Select: "%string; msg_range 0 9;
                    "Select: "%string];
         log_file := EmptyString; log_openable := true |}.
Proof. vm_compute. reflexivity. Qed.

(** At end of input the process exits with status 1. *)
Example read_int_end_of_input :
  read_int "Select: " 0 9
    {| stdin := []; stdout := [];
       log_file := EmptyString; log_openable := true |}
  = Exited 1
      {| stdin := []; stdout := ["Select: "%string; msg_input_error];
         log_file := EmptyString; log_openable := true |}.
Proof. vm_compute. reflexivity. Qed.

End ReadIntClaims.

(** * Part IV: further properties of the code *)

(** ** The decoder and the encoder together *)

Section DecoderProperties.

Local Open Scope Q_scope.

Local Notation "'decodeQ'" := (@rcc_resistance_to_color Q Q_double).
Local Notation "'normalizeQ'" := (@normalize Q Q_double).

(** X1.  In exact arithmetic: a positive resistance is decoded (no
    undefined behaviour) exactly when it is below
    [(INT_MAX + 1/2) * 10^9]. *)
Theorem decoder_defined_iff_below_limit (R : Q) :
  0 < R ->
  ((exists b, decodeQ R = Defined b) <-> R < decoder_limit).
Proof.
  intros HR. split.
  - intros [b Hb]. destruct (Qlt_le_dec R decoder_limit) as [H | H]; [exact H|].
    rewrite decode_beyond_limit in Hb by assumption. discriminate.
  - intros Hlim. destruct (decode_in_range R HR Hlim) as (b & Hb & _).
    now exists b.
Qed.

Lemma defined_at_47k :
  (exists b, decodeQ 47000 = Defined b) <-> 47000 < decoder_limit.
Proof. apply (decoder_defined_iff_below_limit 47000). reflexivity. Defined.

(** X3.  For every interpretation of [double], binary64 included, and
    every argument (NaN, negative and huge values too): a result of the
    decoder has its multiplier index between 0 and 10, so the silver band
    (index 11) is never suggested, and index 10 comes only from the carry,
    with the digits 1 and 0.  The loops keep [m] in [0, 9] whatever the
    comparisons on [base] answer. *)
Theorem decoder_multiplier_index_bounded
        {D : Type} {ops : DoubleOps D} (R : D) (b : bands) :
  rcc_resistance_to_color R = Defined b ->
  (0 <= m_exp b <= 10)%Z /\
  (m_exp b = 10%Z -> d1 b = 1%Z /\ d2 b = 0%Z).
Proof.
  unfold rcc_resistance_to_color.
  pose proof (normalize_exponent R) as Hm.
  destruct (normalize R) as [base m]. cbn [snd] in Hm.
  destruct (dto_int _) as [rounded|]; [|discriminate]. cbn [cbind].
  destruct (100 <=? rounded)%Z.
  - destruct (index digit_color_names _) as [x1|]; [|discriminate].
    destruct (index digit_color_names _) as [x2|]; [|discriminate].
    destruct (index multiplier_color_names _) as [x3|]; [|discriminate].
    cbn [cbind]. intros [= <-]. cbn [d1 d2 m_exp].
    split; [lia | intros _; split; reflexivity].
  - destruct (index digit_color_names _) as [x1|]; [|discriminate].
    destruct (index digit_color_names _) as [x2|]; [|discriminate].
    destruct (index multiplier_color_names _) as [x3|]; [|discriminate].
    cbn [cbind]. intros [= <-]. cbn [d1 d2 m_exp].
    split; [lia | intros E; exfalso; lia].
Qed.

(** The binary64 decoder at 1e12 ohm: index 10, digits 1 and 0. *)
Lemma multiplier_index_at_1e12 :
  let b := {| d1 := 1; d2 := 0; m_exp := 10; band1 := "1 Brown";
              band2 := "0 Black"; band3 := "10 Gold x0.1" |} in
  rcc_resistance_to_color (D := float) 1000000000000%float = Defined b /\
  (0 <= m_exp b <= 10)%Z /\
  (m_exp b = 10%Z -> d1 b = 1%Z /\ d2 b = 0%Z).
Proof.
  intros b.
  assert (H : rcc_resistance_to_color (D := float) 1000000000000%float
              = Defined b) by (vm_compute; reflexivity).
  split; [exact H|].
  apply (decoder_multiplier_index_bounded 1000000000000%float b H).
Defined.

(** X4.  In exact arithmetic: on a positive resistance the decoder's
    multiplier index stays within the exponents 0 to 9 exactly when the
    resistance is below 99.5e9; from there on the carry makes it 10. *)
Theorem exponent_within_cap_iff (R : Q) (b : bands) :
  0 < R -> decodeQ R = Defined b ->
  ((m_exp b <= 9)%Z <-> R < 99500000000) /\
  (m_exp b = 10%Z <-> 99500000000 <= R).
Proof.
  intros HR Hb.
  destruct (Qlt_le_dec R 99500000000) as [H | H].
  - pose proof (decode_exponent_within_cap R b HR H Hb) as Hm.
    repeat split; intros; try assumption; try lia; lra.
  - pose proof (decode_exponent_past_cap R b H Hb) as Hm.
    repeat split; intros; try assumption; try lia; lra.
Qed.

Lemma exponent_at_47k :
  ((3 <= 9)%Z <-> 47000 < 99500000000) /\
  (3%Z = 10%Z <-> 99500000000 <= 47000).
Proof.
  apply (exponent_within_cap_iff 47000
           {| d1 := 4; d2 := 7; m_exp := 3; band1 := "4 Yellow";
              band2 := "7 Violet"; band3 := "3 Orange x1k" |}).
  - reflexivity.
  - vm_compute. reflexivity.
Defined.

(** *** Encoding and then decoding *)

Lemma forallb_Z_range (f : Z -> bool) (n : nat) :
  forallb f (map Z.of_nat (seq 0 n)) = true ->
  forall z, (0 <= z < Z.of_nat n)%Z -> f z = true.
Proof.
  intros H z Hz. rewrite forallb_forall in H. apply H.
  apply in_map_iff. exists (Z.to_nat z). split; [lia|]. apply in_seq. lia.
Qed.

Lemma round_trips_checked :
  forallb (fun b1 =>
    forallb (fun b2 =>
      forallb (fun m =>
        round_trip_ok (D := Q) (b1 + 1) b2 m
        && round_trip_ok (D := float) (b1 + 1) b2 m)
        (map Z.of_nat (seq 0 10)))
      (map Z.of_nat (seq 0 10)))
    (map Z.of_nat (seq 0 9)) = true.
Proof. vm_compute. reflexivity. Qed.

(** X5.  For a first digit in 1..9, a second digit in 0..9 and a multiplier
    index in 0..9, the resistance the encoder computes is decoded back to
    the same two digits and the same index, over the rationals and over
    binary64. *)
Theorem encode_decode_round_trip (b1 b2 m : Z) :
  (1 <= b1 <= 9)%Z -> (0 <= b2 <= 9)%Z -> (0 <= m <= 9)%Z ->
  (exists r b,
      rcc_color_to_resistance (D := Q) b1 b2 m = Defined r /\
      decodeQ r = Defined b /\
      d1 b = b1 /\ d2 b = b2 /\ m_exp b = m) /\
  (exists r b,
      rcc_color_to_resistance (D := float) b1 b2 m = Defined r /\
      rcc_resistance_to_color (D := float) r = Defined b /\
      d1 b = b1 /\ d2 b = b2 /\ m_exp b = m).
Proof.
  intros H1 H2 Hm.
  pose proof round_trips_checked as H.
  apply (forallb_Z_range _ 9) with (z := (b1 - 1)%Z) in H; [|lia].
  apply (forallb_Z_range _ 10) with (z := b2) in H; [|lia].
  apply (forallb_Z_range _ 10) with (z := m) in H; [|lia].
  replace (b1 - 1 + 1)%Z with b1 in H by lia.
  apply andb_true_iff in H as [HQ HB]. unfold round_trip_ok in HQ, HB.
  split.
  - destruct (rcc_color_to_resistance (D := Q) b1 b2 m) as [r|] eqn:Er;
      [|discriminate].
    destruct (rcc_resistance_to_color r) as [b|] eqn:Eb; [|discriminate].
    apply andb_true_iff in HQ as [HQ E3]. apply andb_true_iff in HQ as [E1 E2].
    apply Z.eqb_eq in E1, E2, E3. exists r, b. repeat split; assumption.
  - destruct (rcc_color_to_resistance (D := float) b1 b2 m) as [r|] eqn:Er;
      [|discriminate].
    destruct (rcc_resistance_to_color r) as [b|] eqn:Eb; [|discriminate].
    apply andb_true_iff in HB as [HB E3]. apply andb_true_iff in HB as [E1 E2].
    apply Z.eqb_eq in E1, E2, E3. exists r, b. repeat split; assumption.
Qed.

Lemma yellow_violet_red_round_trip :
  (exists r b,
      rcc_color_to_resistance (D := Q) 4 7 2 = Defined r /\
      decodeQ r = Defined b /\
      d1 b = 4%Z /\ d2 b = 7%Z /\ m_exp b = 2%Z) /\
  (exists r b,
      rcc_color_to_resistance (D := float) 4 7 2 = Defined r /\
      rcc_resistance_to_color (D := float) r = Defined b /\
      d1 b = 4%Z /\ d2 b = 7%Z /\ m_exp b = 2%Z).
Proof. apply (encode_decode_round_trip 4 7 2); lia. Defined.

(** *** Decoding and then encoding *)

(** Case analysis on an exponent in [0, 9], with the power of ten in
    [Hv : base * 10^m == R] and the multiplier of the goal as numerals. *)
Ltac exponent_numerals He Hv :=
  match type of He with
  | (0 <= ?m <= 9)%Z =>
      let C := fresh "C" in
      assert (C : (m = 0 \/ m = 1 \/ m = 2 \/ m = 3 \/ m = 4 \/ m = 5 \/
                   m = 6 \/ m = 7 \/ m = 8 \/ m = 9)%Z) by lia;
      repeat (destruct C as [C | C]);
      rewrite C in *;
      match type of Hv with
      | context [inject_Z (10 ^ ?k)] =>
          let v := eval vm_compute in (inject_Z (10 ^ k)) in
          change (inject_Z (10 ^ k)) with v in Hv
      end;
      try match goal with
      | |- context [spec_multiplierValue ?k] =>
          let v := eval vm_compute in (spec_multiplierValue k) in
          change (spec_multiplierValue k) with v
      end
  end.

(** X6.  In exact arithmetic: for a resistance from 10 ohm up to (not
    including) 99.5e9 ohm, the bands the decoder suggests encode a
    resistance within 5 percent of the one entered. *)
Theorem decode_encode_within_5_percent (R : Q) :
  10 <= R -> R < 99500000000 ->
  exists b r,
    decodeQ R = Defined b /\
    rcc_color_to_resistance (D := Q) (d1 b) (d2 b) (m_exp b) = Defined r /\
    Qabs (r - R) <= R * (5 # 100).
Proof.
  intros Hlo Hhi.
  assert (HR : 0 < R) by lra.
  assert (Hlim : R < decoder_limit) by (unfold decoder_limit; lra).
  destruct (decode_in_range R HR Hlim) as (b & Hb & Hs & _ & _ & Hm0).
  pose proof (decode_exponent_within_cap R b HR Hhi Hb) as Hm9.
  exists b. eexists. split; [exact Hb|].
  split; [apply encoder_table; lia|].
  cbn [dmul dof_int dlit Q_double].
  destruct (normalize_normalized R HR) as [Hp He Hv Hl].
  pose proof (normalize_exit R HR) as Hx.
  unfold spec_round_carry in Hs.
  destruct (normalizeQ R) as [base m]; cbn [fst snd] in *.
  pose proof (Qfloor_le (base + (1 # 2))) as F1.
  pose proof (Qlt_floor (base + (1 # 2))) as F2.
  rewrite inject_Z_plus in F2. change (inject_Z 1) with 1 in F2.
  assert (Hbase : 10 <= base).
  { destruct Hl as [-> | Hl]; [|exact Hl].
    change (inject_Z (10 ^ 0)) with 1 in Hv. lra. }
  apply Qabs_Qle_condition.
  revert Hs F1 F2. generalize (Qfloor (base + (1 # 2))). intros f Hs F1 F2.
  destruct (100 <=? f)%Z eqn:C.
  - injection Hs as E1 E2 E3. rewrite <- E1, <- E2, <- E3 in *.
    apply Z.leb_le in C.
    rewrite Zle_Qle in C. change (inject_Z 100) with 100 in C.
    assert (m <> 9%Z) by lia.
    assert (Hb100 : base < 100) by (destruct Hx; [assumption | contradiction]).
    change (inject_Z (10 / 10 * 10 + 10 mod 10)) with 10.
    exponent_numerals He Hv; try lia; lra.
  - injection Hs as E1 E2 E3. rewrite <- E1, <- E2, <- E3 in *.
    apply Z.leb_gt in C.
    replace (f / 10 * 10 + f mod 10)%Z with f
      by (Z.div_mod_to_equations; lia).
    exponent_numerals He Hv; lra.
Qed.

Lemma accuracy_at_4750 :
  exists b r,
    decodeQ 4750 = Defined b /\
    rcc_color_to_resistance (D := Q) (d1 b) (d2 b) (m_exp b) = Defined r /\
    Qabs (r - 4750) <= 4750 * (5 # 100).
Proof.
  apply (decode_encode_within_5_percent 4750); [discriminate | reflexivity].
Defined.

End DecoderProperties.

(** ** [read_int] on arbitrary input *)

Section ReadIntProperties.

Lemma read_line_app (n : nat) (s : list ascii) :
  s = fst (read_line n s) ++ snd (read_line n s).
Proof.
  revert s. induction n as [|n IH]; intros s; [reflexivity|].
  destruct s as [|c t]; [reflexivity|]. cbn [read_line].
  destruct (Ascii.eqb c LF); [reflexivity|].
  specialize (IH t). destruct (read_line n t) as [b r]; cbn [fst snd] in *.
  cbn [app]. now f_equal.
Qed.

Lemma fgets_some (w : world) (c : ascii) (t : list ascii) :
  stdin w = c :: t ->
  exists buf rest,
    fgets 64 w = Some (buf, set_stdin rest w) /\
    stdin w = buf ++ rest /\ (List.length rest < List.length (stdin w))%nat.
Proof.
  intros E. unfold fgets. rewrite E. change (64 - 1)%nat with 63%nat.
  pose proof (read_line_app 63 (c :: t)) as A.
  pose proof (read_line_shrinks 62 (c :: t)) as S.
  destruct (read_line 63 (c :: t)) as [buf rest]; cbn [fst snd] in *.
  exists buf, rest. repeat split; auto. apply S. discriminate.
Qed.

(** The number of iterations allowed does not matter once it exceeds the
    number of bytes left. *)
Lemma read_int_loop_fuel (prompt : string) (min max : Z) :
  forall f1 f2 w,
    (List.length (stdin w) < f1)%nat -> (List.length (stdin w) < f2)%nat ->
    read_int_loop f1 prompt min max w = read_int_loop f2 prompt min max w.
Proof.
  induction f1 as [|f1 IH]; intros f2 w H1 H2; [lia|].
  destruct f2 as [|f2]; [lia|]. cbn [read_int_loop].
  destruct (stdin w) as [|c t] eqn:E.
  - unfold fgets. cbn [stdin printf]. rewrite E. reflexivity.
  - destruct (fgets_some (printf prompt w) c t E) as (buf & rest & F & _ & L).
    rewrite F. destruct (read_int_attempt min max buf); [reflexivity|].
    cbn [stdin printf] in L. rewrite E in L.
    apply IH; cbn [stdin printf set_stdin]; lia.
Qed.

Lemma read_int_loop_outcome (prompt : string) (min max : Z) :
  INT_MIN <= min -> max <= INT_MAX ->
  forall fuel w,
    (List.length (stdin w) < fuel)%nat ->
    (exists v w', read_int_loop fuel prompt min max w = Returned v w' /\
                  min <= v <= max) \/
    (exists w', read_int_loop fuel prompt min max w = Exited 1 w' /\
                stdin w' = []).
Proof.
  intros Hmin Hmax. induction fuel as [|fuel IH]; intros w Hw; [lia|].
  destruct (read_int_loop (S fuel) prompt min max w) as [v w'|s w'|] eqn:E.
  - left. exists v, w'. split; [reflexivity|].
    exact (read_int_loop_in_range prompt min max Hmin Hmax _ _ _ _ E).
  - right. revert E. cbn [read_int_loop].
    destruct (stdin w) as [|c t] eqn:Es.
    + unfold fgets. cbn [stdin printf]. rewrite Es.
      intros [= <- <-]. exists (printf msg_input_error (printf prompt w)).
      split; [reflexivity | exact Es].
    + destruct (fgets_some (printf prompt w) c t Es) as (buf & rest & F & _ & L).
      rewrite F. destruct (read_int_attempt min max buf); [discriminate|].
      cbn [stdin printf] in L. rewrite Es in L.
      intros E. specialize (IH (printf diagnostic (set_stdin rest (printf prompt w)))).
      destruct IH as [(v & w1 & E1 & _) | (w1 & E1 & S1)].
      * cbn [stdin printf set_stdin]. try rewrite Es in Hw.
        cbn [List.length] in *. lia.
      * congruence.
      * rewrite E in E1. injection E1 as -> ->. exists w1. auto.
  - exfalso. exact (read_int_loop_total prompt min max _ _ Hw E).
Qed.

(** X8.  Whatever the input, [read_int] ends in one of two ways: it returns
    a value inside [min, max], or, when the input ends before a valid line,
    the process exits with status 1. *)
Theorem read_int_returns_in_range_or_exits
        (prompt : string) (min max : Z) (w : world) :
  INT_MIN <= min -> max <= INT_MAX ->
  (exists v w', read_int prompt min max w = Returned v w' /\
                min <= v <= max) \/
  (exists w', read_int prompt min max w = Exited 1 w' /\ stdin w' = []).
Proof.
  intros Hmin Hmax. apply read_int_loop_outcome; auto.
Qed.

Lemma menu_choice_in_range_or_exit :
  (exists v w',
      read_int "Select: " 0 6
        {| stdin := ["9"; LF; "3"; LF]%char; stdout := [];
           log_file := EmptyString; log_openable := true |}
      = Returned v w' /\ 0 <= v <= 6) \/
  (exists w',
      read_int "Select: " 0 6
        {| stdin := ["9"; LF; "3"; LF]%char; stdout := [];
           log_file := EmptyString; log_openable := true |}
      = Exited 1 w' /\ stdin w' = []).
Proof.
  apply (read_int_returns_in_range_or_exits "Select: " 0 6);
    [unfold INT_MIN | unfold INT_MAX]; lia.
Defined.

Lemma frames_refl (w : world) : frames w w.
Proof. repeat split; [now exists []; rewrite app_nil_r | now exists []]. Qed.

Lemma frames_trans (w1 w2 w3 : world) : frames w1 w2 -> frames w2 w3 -> frames w1 w3.
Proof.
  intros (L1 & O1 & [o1 S1] & [u1 I1]) (L2 & O2 & [o2 S2] & [u2 I2]).
  repeat split; try congruence.
  - exists (o1 ++ o2). rewrite S2, S1. now rewrite app_assoc.
  - exists (u1 ++ u2). rewrite I1, I2. now rewrite app_assoc.
Qed.

Lemma frames_printf (text : string) (w : world) : frames w (printf text w).
Proof. repeat split; [now exists [text] | now exists []]. Qed.

Lemma read_int_loop_frames (prompt : string) (min max : Z) :
  forall fuel w w',
    (exists v, read_int_loop fuel prompt min max w = Returned v w') \/
    (exists s, read_int_loop fuel prompt min max w = Exited s w') ->
    frames w w'.
Proof.
  induction fuel as [|fuel IH]; intros w w' H.
  - destruct H as [[? H] | [? H]]; discriminate H.
  - revert H. cbn [read_int_loop].
    destruct (stdin w) as [|c t] eqn:Es.
    + unfold fgets. cbn [stdin printf]. rewrite Es.
      intros [[? H] | [? H]]; [discriminate|]. injection H as _ <-.
      eapply frames_trans; apply frames_printf.
    + destruct (fgets_some (printf prompt w) c t Es) as (buf & rest & F & A & _).
      rewrite F.
      assert (Fr : frames w (set_stdin rest (printf prompt w))).
      { repeat split; [now exists [prompt] | now exists buf]. }
      destruct (read_int_attempt min max buf).
      * intros [[? H] | [? H]]; [|discriminate]. injection H as _ <-. exact Fr.
      * intros H. apply IH in H.
        eapply frames_trans; [exact Fr|].
        eapply frames_trans; [apply frames_printf | exact H].
Qed.

(** X9.  [read_int] never touches the log; it only appends to the output
    and consumes a prefix of the input. *)
Theorem read_int_frames (prompt : string) (min max : Z) (w w' : world) :
  (exists v, read_int prompt min max w = Returned v w') \/
  (exists s, read_int prompt min max w = Exited s w') ->
  frames w w'.
Proof. apply read_int_loop_frames. Qed.

Lemma menu_choice_frames :
  frames
    {| stdin := ["9"; LF; "3"; LF; "y"]%char; stdout := [];
       log_file := "kept"; log_openable := true |}
    {| stdin := ["y"%char];
       stdout := ["Select: "%string; msg_range 0 6; "Select: "%string];
       log_file := "kept"; log_openable := true |}.
Proof.
  apply (read_int_frames "Select: " 0 6).
  left. exists 3. vm_compute. reflexivity.
Defined.

(** *** Input that ends before a valid line *)

Lemma read_int_loop_all_invalid (prompt : string) (min max : Z) :
  INT_MIN <= min -> max <= INT_MAX ->
  forall bad,
    Forall text_line bad -> Forall (invalid_line min max) bad ->
    forall fuel w,
      stdin w = List.concat (map (fun l => l ++ [LF]) bad) ->
      (List.length (stdin w) < fuel)%nat ->
      exists diagnostics,
        Forall2 (rejected min max) bad diagnostics /\
        read_int_loop fuel prompt min max w
        = Exited 1
            {| stdin := [];
               stdout := stdout w
                         ++ flat_map (fun d => [prompt; d]) diagnostics
                         ++ [prompt; msg_input_error];
               log_file := log_file w;
               log_openable := log_openable w |}.
Proof.
  intros Hmin Hmax bad Hbad Hinv.
  induction bad as [|l bad IH]; intros fuel w Ein Hfuel.
  - exists []. split; [constructor|].
    destruct fuel as [|fuel]; [lia|].
    cbn [List.concat map] in Ein.
    cbn [read_int_loop]. unfold fgets. cbn [stdin printf]. rewrite Ein.
    unfold printf. cbn [stdin stdout log_file log_openable flat_map app].
    rewrite Ein. f_equal. f_equal. now rewrite <- app_assoc.
  - inversion Hbad as [|? ? Hl Hbad']; subst.
    inversion Hinv as [|? ? Hil Hinv']; subst.
    specialize (IH Hbad' Hinv').
    destruct fuel as [|fuel]; [lia|].
    cbn [List.concat map] in Ein. rewrite <- app_assoc in Ein.
    cbn [app] in Ein.
    cbn [read_int_loop]. unfold fgets. cbn [stdin printf]. rewrite Ein.
    destruct Hl as (LLF & LNUL & Llen).
    match goal with
    | |- context [l ++ LF :: ?r] =>
        destruct (l ++ LF :: r) eqn:E; [now destruct l|]; rewrite <- E
    end.
    change (64 - 1)%nat with 63%nat.
    rewrite read_line_text by (auto; lia).
    destruct (read_int_attempt min max (l ++ [LF])) as [x|d] eqn:A.
    + apply read_int_attempt_accept in A as [Hx Hxr]; auto.
      exfalso. exact (Hil x Hx Hxr).
    + match goal with
      | |- context [read_int_loop fuel prompt min max ?w1] =>
          destruct (IH fuel w1) as (ds & Hds & Eds)
      end.
      * reflexivity.
      * cbn [stdin printf set_stdin]. rewrite Ein, <- E in Hfuel.
        rewrite length_app in Hfuel. cbn [List.length] in Hfuel. lia.
      * exists (d :: ds). split.
        -- constructor; [|exact Hds].
           now apply read_int_attempt_retry in A.
        -- rewrite Eds. cbn [stdin stdout log_file log_openable printf set_stdin].
           cbn [flat_map]. f_equal. f_equal.
           repeat rewrite <- app_assoc. reflexivity.
Qed.

(** X10.  When every line of the input fits the buffer (at most 62
    characters), holds no NUL byte and is no valid entry, [read_int] prints
    one diagnostic per line, then reports the input error and the process
    exits with status 1: no value is returned. *)
Theorem read_int_exits_without_valid_line
        (prompt : string) (min max : Z) (bad : list (list ascii)) (w : world) :
  INT_MIN <= min -> max <= INT_MAX ->
  Forall text_line bad -> Forall (invalid_line min max) bad ->
  stdin w = List.concat (map (fun l => l ++ [LF]) bad) ->
  exists diagnostics,
    Forall2 (rejected min max) bad diagnostics /\
    read_int prompt min max w
    = Exited 1
        {| stdin := [];
           stdout := stdout w
                     ++ flat_map (fun d => [prompt; d]) diagnostics
                     ++ [prompt; msg_input_error];
           log_file := log_file w;
           log_openable := log_openable w |}.
Proof.
  intros Hmin Hmax Hbad Hinv Ein.
  apply (read_int_loop_all_invalid prompt min max Hmin Hmax bad); auto.
Qed.

Lemma read_int_exits_after_abc_and_15 :
  exists diagnostics,
    Forall2 (rejected 0 9) [["a"; "b"; "c"]; ["1"; "5"]]%char diagnostics /\
    read_int "Select: " 0 9
      {| stdin := ["a"; "b"; "c"; LF; "1"; "5"; LF]%char;
         stdout := []; log_file := EmptyString; log_openable := true |}
    = Exited 1
        {| stdin := [];
           stdout := [] ++ flat_map (fun d => ["Select: "%string; d]) diagnostics
                        ++ ["Select: "%string; msg_input_error];
           log_file := EmptyString; log_openable := true |}.
Proof.
  apply (read_int_exits_without_valid_line "Select: " 0 9
           [["a"; "b"; "c"]; ["1"; "5"]]%char
           {| stdin := ["a"; "b"; "c"; LF; "1"; "5"; LF]%char;
              stdout := []; log_file := EmptyString; log_openable := true |}).
  - unfold INT_MIN; lia.
  - unfold INT_MAX; lia.
  - repeat constructor; cbn; intuition (try discriminate; try lia).
  - repeat constructor.
    + apply (rejected_attempt_invalid 0 9 _ msg_not_integer);
        [unfold INT_MIN; lia | unfold INT_MAX; lia | vm_compute; reflexivity].
    + apply (rejected_attempt_invalid 0 9 _ (msg_range 0 9));
        [unfold INT_MIN; lia | unfold INT_MAX; lia | vm_compute; reflexivity].
  - reflexivity.
Defined.

(** *** A last line without a newline *)

Lemma read_line_all (n : nat) (l : list ascii) :
  ~ In LF l -> (List.length l <= n)%nat -> read_line n l = (l, []).
Proof.
  revert n. induction l as [|c l IH]; intros n Hl Hn.
  - destruct n; reflexivity.
  - destruct n; [cbn in Hn; lia|]. cbn [read_line].
    destruct (Ascii.eqb c LF) eqn:E.
    + apply Ascii.eqb_eq in E. exfalso; apply Hl; now left.
    + rewrite IH; [reflexivity | | cbn in Hn; lia].
      intros H; apply Hl; now right.
Qed.

Lemma read_int_attempt_of_last_line (min max : Z) (l : list ascii) (v : Z) :
  line_value l v ->
  read_int_attempt min max l
  = if (clamp_long v <? min) || (max <? clamp_long v)
    then Retry (msg_range min max)
    else Accept (int_of_long (clamp_long v)).
Proof.
  intros (ws & sg & ds & trail & El & Hws & Hsg & Hne & Hds & Htr).
  destruct ds as [|c0 ds']; [congruence|].
  assert (Hc0 : isdigit c0 = true) by (cbn in Hds; now apply andb_true_iff in Hds).
  destruct (digit_classes c0 Hc0) as (Csp & Cbl & Cm & Cp & Cn).
  assert (Htail : isdigit (deref trail) = false).
  { destruct trail as [|b t]; [reflexivity|]. cbn in Htr |- *.
    apply andb_true_iff in Htr as [Hb _]. now apply blank_classes in Hb. }
  assert (Hblank : skip_blank trail = []).
  { rewrite <- (app_nil_r trail). now apply skip_blank_app. }
  assert (Hscan : strtol_digits 0 ((c0 :: ds') ++ trail)
                  = (decimal_value (c0 :: ds'), trail))
    by (now apply strtol_digits_app).
  subst l. unfold read_int_attempt, strtol.
  rewrite skip_space_app; [|assumption|].
  - destruct Hsg as [[-> ->] | [[-> ->] | [-> ->]]]; cbn [app deref hd tl].
    + rewrite Cm, Cp. cbn [deref hd]. rewrite Hc0.
      change (c0 :: ds' ++ trail) with ((c0 :: ds') ++ trail).
      rewrite Hscan, Hblank. reflexivity.
    + change (Ascii.eqb "+" "-") with false. change (Ascii.eqb "+" "+") with true.
      cbn [deref hd]. rewrite Hc0.
      change (c0 :: ds' ++ trail) with ((c0 :: ds') ++ trail).
      rewrite Hscan, Hblank. reflexivity.
    + change (Ascii.eqb "-" "-") with true.
      cbn [deref hd]. rewrite Hc0.
      change (c0 :: ds' ++ trail) with ((c0 :: ds') ++ trail).
      rewrite Hscan, Hblank. reflexivity.
  - destruct Hsg as [[-> _] | [[-> _] | [-> _]]]; cbn [app deref hd];
      [exact Csp | reflexivity | reflexivity].
Qed.

(** X11.  A valid entry of at most 62 characters that ends the input
    without a newline is accepted: the terminating NUL of the buffer counts
    as the end of the line. *)
Theorem read_int_accepts_unterminated_last_line
        (prompt : string) (min max : Z) (good : list ascii) (v : Z) (w : world) :
  INT_MIN <= min -> max <= INT_MAX ->
  text_line good -> line_value good v -> min <= v <= max ->
  stdin w = good ->
  read_int prompt min max w
  = Returned v
      {| stdin := []; stdout := stdout w ++ [prompt];
         log_file := log_file w; log_openable := log_openable w |}.
Proof.
  intros Hmin Hmax (GLF & GNUL & Glen) Hv Hr Ein.
  unfold read_int. cbn [read_int_loop]. unfold fgets. cbn [stdin printf].
  rewrite Ein.
  destruct good as [|c t] eqn:Eg.
  - exfalso. destruct Hv as (ws & sg & ds & tr & E & _ & _ & Hne & _).
    symmetry in E. apply app_eq_nil in E as [_ E].
    apply app_eq_nil in E as [_ E]. apply app_eq_nil in E as [E _].
    contradiction.
  - rewrite <- Eg in *. change (64 - 1)%nat with 63%nat.
    rewrite read_line_all by (auto; lia).
    rewrite (read_int_attempt_of_last_line min max good v Hv).
    rewrite clamp_long_small by lia.
    replace (v <? min) with false by (symmetry; apply Z.ltb_ge; lia).
    replace (max <? v) with false by (symmetry; apply Z.ltb_ge; lia).
    cbn [orb]. rewrite int_of_long_small by lia. reflexivity.
Qed.

Lemma read_int_accepts_unterminated_7 :
  read_int "Select: " 0 9
    {| stdin := [" "; "7"]%char; stdout := [];
       log_file := EmptyString; log_openable := true |}
  = Returned 7
      {| stdin := []; stdout := [] ++ ["Select: "%string];
         log_file := EmptyString; log_openable := true |}.
Proof.
  apply (read_int_accepts_unterminated_last_line "Select: " 0 9
           [" "; "7"]%char 7
           {| stdin := [" "; "7"]%char; stdout := [];
              log_file := EmptyString; log_openable := true |}).
  - unfold INT_MIN; lia.
  - unfold INT_MAX; lia.
  - repeat split; cbn; intuition (try discriminate; try lia).
  - exists [" "%char], [], ["7"%char], []. repeat split; auto. discriminate.
  - lia.
  - reflexivity.
Defined.

(** *** Lines that end in carriage return and newline *)

Lemma line_value_last (l : list ascii) (c : ascii) (x : Z) :
  line_value (l ++ [c]) x -> isdigit c = true \/ isblank c = true.
Proof.
  intros (ws & sg & ds & trail & E & _ & _ & Hne & Hds & Htr).
  assert (Hin : In c (ds ++ trail)).
  { apply (last_in_suffix l (ws ++ sg)).
    - destruct ds; [congruence | discriminate].
    - rewrite E. now rewrite <- app_assoc. }
  apply in_app_or in Hin as [Hin | Hin].
  - left. rewrite forallb_forall in Hds. auto.
  - right. rewrite forallb_forall in Htr. auto.
Qed.

Lemma read_int_attempt_crlf (min max : Z) (l : list ascii) :
  ~ In LF l -> ~ In NUL l -> INT_MIN <= min -> max <= INT_MAX ->
  exists d, (d = msg_not_integer \/ d = msg_unexpected) /\
            read_int_attempt min max (l ++ [CR; LF]) = Retry d.
Proof.
  intros HLF HNUL Hmin Hmax.
  assert (HLF' : ~ In LF (l ++ [CR])).
  { intros H. apply in_app_or in H as [H | [H | []]];
      [contradiction | discriminate]. }
  assert (HNUL' : ~ In NUL (l ++ [CR])).
  { intros H. apply in_app_or in H as [H | [H | []]];
      [contradiction | discriminate]. }
  assert (Hno : forall x, ~ line_value (l ++ [CR]) x).
  { intros x Hx. apply line_value_last in Hx as [H | H]; discriminate. }
  replace (l ++ [CR; LF]) with ((l ++ [CR]) ++ [LF])
    by (now rewrite <- app_assoc).
  destruct (read_int_attempt min max ((l ++ [CR]) ++ [LF])) as [v|d] eqn:A.
  - apply read_int_attempt_accept in A as [Hv _]; auto.
    exfalso. exact (Hno v Hv).
  - exists d. split; [|reflexivity].
    apply read_int_attempt_retry in A; auto.
    destruct A as [_ | _ _ | x Hx _]; auto.
    exfalso. exact (Hno x Hx).
Qed.

(** X12.  A line of at most 61 characters without NUL byte, followed by
    carriage return and newline, is never accepted, whatever digits or
    text it holds: [read_int] prints "Please enter an integer." or
    "Unexpected characters. Try again." and goes on with the rest of the
    input. *)
Theorem read_int_rejects_crlf_line
        (prompt : string) (min max : Z) (l rest : list ascii) (w : world) :
  INT_MIN <= min -> max <= INT_MAX ->
  ~ In LF l -> ~ In NUL l -> (List.length l <= 61)%nat ->
  stdin w = l ++ CR :: LF :: rest ->
  exists d,
    (d = msg_not_integer \/ d = msg_unexpected) /\
    read_int prompt min max w
    = read_int prompt min max (printf d (set_stdin rest (printf prompt w))).
Proof.
  intros Hmin Hmax HLF HNUL Hlen Ein.
  destruct (read_int_attempt_crlf min max l HLF HNUL Hmin Hmax) as (d & Hd & A).
  exists d. split; [exact Hd|].
  unfold read_int at 1. cbn [read_int_loop]. unfold fgets.
  cbn [stdin printf]. rewrite Ein.
  assert (E : l ++ CR :: LF :: rest = (l ++ [CR]) ++ LF :: rest)
    by (now rewrite <- app_assoc).
  rewrite E.
  destruct ((l ++ [CR]) ++ LF :: rest) eqn:E'; [now destruct l|].
  rewrite <- E'. change (64 - 1)%nat with 63%nat.
  rewrite read_line_text.
  - replace ((l ++ [CR]) ++ [LF]) with (l ++ [CR; LF])
      by (now rewrite <- app_assoc).
    rewrite A. unfold read_int.
    apply read_int_loop_fuel; cbn [stdin printf set_stdin].
    + rewrite !length_app. cbn [List.length]. lia.
    + lia.
  - intros H. apply in_app_or in H as [H | [H | []]];
      [contradiction | discriminate].
  - rewrite length_app. cbn [List.length]. lia.
Qed.

Lemma read_int_rejects_crlf_5 :
  exists d,
    (d = msg_not_integer \/ d = msg_unexpected) /\
    read_int "Select: " 0 9
      {| stdin := ["5"; CR; LF; "5"; LF]%char; stdout := [];
         log_file := EmptyString; log_openable := true |}
    = read_int "Select: " 0 9
        (printf d
           (set_stdin ["5"; LF]%char
              (printf "Select: "
                 {| stdin := ["5"; CR; LF; "5"; LF]%char; stdout := [];
                    log_file := EmptyString; log_openable := true |}))).
Proof.
  apply (read_int_rejects_crlf_line "Select: " 0 9 ["5"%char] ["5"; LF]%char).
  - unfold INT_MIN; lia.
  - unfold INT_MAX; lia.
  - cbn; intuition discriminate.
  - cbn; intuition discriminate.
  - cbn; lia.
  - reflexivity.
Defined.

End ReadIntProperties.

(** ** Selections and the encoder; replies and the log *)

Section Composition.

(** X13.  Band selections obtained from [read_int] with the ranges the
    program uses (0..9, 0..9, 0..11) always index inside the tables: the
    encoder is defined on them, its result is not negative, and the three
    labels exist. *)
Theorem encoder_defined_on_selections
        (p1 p2 p3 : string) (w w1 w2 w3 : world) (b1 b2 m : Z) :
  read_int p1 0 9 w = Returned b1 w1 ->
  read_int p2 0 9 w1 = Returned b2 w2 ->
  read_int p3 0 11 w2 = Returned m w3 ->
  (exists r : Q, rcc_color_to_resistance b1 b2 m = Defined r /\ (0 <= r)%Q) /\
  (exists r : float, rcc_color_to_resistance b1 b2 m = Defined r) /\
  (exists l1 l2 l3,
      index digit_color_names b1 = Defined l1 /\
      index digit_color_names b2 = Defined l2 /\
      index multiplier_color_names m = Defined l3).
Proof.
  intros R1 R2 R3.
  assert (Hmin : INT_MIN <= 0) by (unfold INT_MIN; lia).
  assert (H9 : 9 <= INT_MAX) by (unfold INT_MAX; lia).
  assert (H11 : 11 <= INT_MAX) by (unfold INT_MAX; lia).
  apply (read_int_loop_in_range p1 0 9 Hmin H9) in R1.
  apply (read_int_loop_in_range p2 0 9 Hmin H9) in R2.
  apply (read_int_loop_in_range p3 0 11 Hmin H11) in R3.
  split; [|split].
  - eexists. split; [apply encoder_table; assumption|].
    cbn [dmul dof_int dlit Q_double].
    apply Qmult_le_0_compat.
    + change 0%Q with (inject_Z 0). rewrite <- Zle_Qle. lia.
    + unfold spec_multiplierValue.
      destruct (m =? 10); [discriminate|].
      destruct (m =? 11); [discriminate|].
      change 0%Q with (inject_Z 0). rewrite <- Zle_Qle.
      apply Z.pow_nonneg. lia.
  - eexists. apply encoder_table; assumption.
  - destruct (index_defined digit_color_names b1) as [l1 E1]; [cbn; lia|].
    destruct (index_defined digit_color_names b2) as [l2 E2]; [cbn; lia|].
    destruct (index_defined multiplier_color_names m) as [l3 E3]; [cbn; lia|].
    now exists l1, l2, l3.
Qed.

Lemma encoder_defined_on_typed_selections :
  (exists r : Q, rcc_color_to_resistance 4 7 10 = Defined r /\ (0 <= r)%Q) /\
  (exists r : float, rcc_color_to_resistance 4 7 10 = Defined r) /\
  (exists l1 l2 l3,
      index digit_color_names 4 = Defined l1 /\
      index digit_color_names 7 = Defined l2 /\
      index multiplier_color_names 10 = Defined l3).
Proof.
  apply (encoder_defined_on_selections "a" "b" "c"
           {| stdin := ["4"; LF; "7"; LF; "1"; "2"; LF; "1"; "0"; LF]%char;
              stdout := []; log_file := EmptyString; log_openable := true |}
           {| stdin := ["7"; LF; "1"; "2"; LF; "1"; "0"; LF]%char;
              stdout := ["a"%string];
              log_file := EmptyString; log_openable := true |}
           {| stdin := ["1"; "2"; LF; "1"; "0"; LF]%char;
              stdout := ["a"%string; "b"%string];
              log_file := EmptyString; log_openable := true |}
           {| stdin := [];
              stdout := ["a"%string; "b"%string; "c"%string;
                         msg_range 0 11; "c"%string];
              log_file := EmptyString; log_openable := true |});
    vm_compute; reflexivity.
Defined.

Lemma read_line_long (n : nat) (l rest : list ascii) :
  ~ In LF l -> (n <= List.length l)%nat ->
  read_line n (l ++ rest) = (firstn n l, skipn n l ++ rest).
Proof.
  revert l. induction n as [|n IH]; intros l Hl Hn; [reflexivity|].
  destruct l as [|c l]; [cbn in Hn; lia|]. cbn [app read_line firstn skipn].
  destruct (Ascii.eqb c LF) eqn:E.
  - apply Ascii.eqb_eq in E. exfalso; apply Hl; now left.
  - rewrite IH; [reflexivity | | cbn in Hn; lia].
    intros H; apply Hl; now right.
Qed.

(** X14.  [ask_and_save] reads at most 15 bytes of the reply.  A reply line
    of up to 14 characters is consumed with its newline; of a longer one
    the characters from the sixteenth on stay in the input, where the next
    prompt will read them. *)
Theorem ask_and_save_consumes_reply
        (summary : string) (w : world) (l rest : list ascii) :
  ~ In LF l -> stdin w = l ++ LF :: rest ->
  exists w',
    ask_and_save summary w = Returned tt w' /\
    stdin w' = if (List.length l <=? 14)%nat then rest
               else skipn 15 l ++ LF :: rest.
Proof.
  intros Hl Ein. unfold ask_and_save, fgets. cbn [stdin printf]. rewrite Ein.
  destruct (l ++ LF :: rest) eqn:E; [now destruct l|]. rewrite <- E.
  change (16 - 1)%nat with 15%nat.
  destruct (List.length l <=? 14)%nat eqn:Len.
  - apply Nat.leb_le in Len. rewrite read_line_text by (auto; lia).
    destruct (_ || _); [destruct (log_openable _)|];
      eexists; split; reflexivity.
  - apply Nat.leb_gt in Len. rewrite read_line_long by (auto; lia).
    destruct (_ || _); [destruct (log_openable _)|];
      eexists; split; reflexivity.
Qed.

Lemma ask_and_save_consumes_yes :
  exists w',
    ask_and_save "summary"
      {| stdin := ["y"; "e"; "s"; LF; "2"; LF]%char; stdout := [];
         log_file := EmptyString; log_openable := true |}
    = Returned tt w' /\
    stdin w' = if (List.length ["y"; "e"; "s"]%char <=? 14)%nat
               then ["2"; LF]%char
               else skipn 15 ["y"; "e"; "s"]%char ++ LF :: ["2"; LF]%char.
Proof.
  apply (ask_and_save_consumes_reply "summary"
           {| stdin := ["y"; "e"; "s"; LF; "2"; LF]%char; stdout := [];
              log_file := EmptyString; log_openable := true |}
           ["y"; "e"; "s"]%char ["2"; LF]%char).
  - cbn; intuition discriminate.
  - reflexivity.
Defined.

End Composition.

(** ** The log tools *)

Section LogProperties.

Lemma c_string_text (l : list ascii) : ~ In NUL l -> c_string l = l.
Proof.
  induction l as [|c l IH]; intros H; [reflexivity|]. cbn [c_string].
  destruct (Ascii.eqb c NUL) eqn:E.
  - apply Ascii.eqb_eq in E. exfalso; apply H; now left.
  - rewrite IH; [reflexivity|]. intros Hin; apply H; now right.
Qed.

Lemma read_line_length (n : nat) (s : list ascii) :
  (List.length (fst (read_line n s)) <= n)%nat.
Proof.
  revert s. induction n as [|n IH]; intros s; [cbn; lia|].
  destruct s as [|c t]; [cbn; lia|]. cbn [read_line].
  destruct (Ascii.eqb c LF); [cbn; lia|].
  specialize (IH t). destruct (read_line n t) as [b r]; cbn [fst] in *.
  cbn [List.length]. lia.
Qed.

Lemma view_lines_echo :
  forall fuel file w,
    (List.length file < fuel)%nat -> ~ In NUL file ->
    exists chunks,
      view_lines fuel file w
      = {| stdin := stdin w; stdout := stdout w ++ chunks;
           log_file := log_file w; log_openable := log_openable w |} /\
      List.concat (map list_ascii_of_string chunks) = file /\
      Forall (fun c => (1 <= String.length c <= 255)%nat) chunks.
Proof.
  induction fuel as [|fuel IH]; intros file w Hlen Hnul; [lia|].
  cbn [view_lines]. destruct file as [|c t] eqn:Ef.
  - exists []. rewrite app_nil_r. destruct w. repeat split. constructor.
  - rewrite <- Ef in *.
    pose proof (read_line_app 255 file) as A.
    pose proof (read_line_shrinks 254 file) as S.
    pose proof (read_line_length 255 file) as L.
    destruct (read_line 255 file) as [line rest]; cbn [fst snd] in *.
    assert (Hne : file <> []) by (rewrite Ef; discriminate).
    specialize (S Hne).
    assert (Hl : ~ In NUL line)
      by (intros H; apply Hnul; rewrite A; apply in_or_app; now left).
    assert (Hr : ~ In NUL rest)
      by (intros H; apply Hnul; rewrite A; apply in_or_app; now right).
    destruct (IH rest (fputs line w)) as (chunks & E & C & F); [lia | exact Hr|].
    exists (string_of_list_ascii line :: chunks).
    rewrite E. unfold fputs. rewrite c_string_text by exact Hl.
    cbn [stdin stdout log_file log_openable printf].
    split; [now rewrite <- app_assoc|]. split.
    + cbn [map List.concat]. rewrite list_ascii_of_string_of_list_ascii.
      rewrite C. now rewrite <- A.
    + constructor; [|exact F].
      rewrite <- (list_ascii_of_string_of_list_ascii line) in L.
      assert (String.length (string_of_list_ascii line) = List.length line) as ->.
      { clear. induction line as [|c l IH]; cbn; [reflexivity | now rewrite IH]. }
      split; [|rewrite list_ascii_of_string_of_list_ascii in L; exact L].
      destruct line; [|cbn; lia].
      cbn [app] in A. subst rest. lia.
Qed.

(** X18.  Viewing a log without NUL bytes echoes it verbatim between the
    two markers, in pieces of 1 to 255 bytes whatever the length of its
    lines, and leaves the log and the input as they are. *)
Theorem view_log_echoes_verbatim (w : world) :
  ~ In NUL (list_ascii_of_string (log_file w)) ->
  exists chunks,
    view_log true w
    = {| stdin := stdin w;
         stdout := stdout w
                   ++ [(nl ++ "--- File Start ---" ++ nl)%string]
                   ++ chunks ++ [("--- File End ---" ++ nl)%string];
         log_file := log_file w; log_openable := log_openable w |} /\
    List.concat (map list_ascii_of_string chunks)
    = list_ascii_of_string (log_file w) /\
    Forall (fun c => (1 <= String.length c <= 255)%nat) chunks.
Proof.
  intros Hnul. unfold view_log.
  destruct (view_lines_echo
              (S (List.length (list_ascii_of_string (log_file w))))
              (list_ascii_of_string (log_file w))
              (printf (nl ++ "--- File Start ---" ++ nl)%string w))
    as (chunks & E & C & F); [lia | exact Hnul|].
  exists chunks. rewrite E.
  cbn [stdin stdout log_file log_openable printf].
  split; [|split; assumption].
  unfold printf. cbn [stdin stdout log_file log_openable].
  f_equal. now rewrite <- !app_assoc.
Qed.

Lemma view_log_echoes_two_lines :
  exists chunks,
    view_log true
      {| stdin := []; stdout := [];
         log_file := ("first" ++ nl ++ "second" ++ nl)%string;
         log_openable := true |}
    = {| stdin := [];
         stdout := []
                   ++ [(nl ++ "--- File Start ---" ++ nl)%string]
                   ++ chunks ++ [("--- File End ---" ++ nl)%string];
         log_file := ("first" ++ nl ++ "second" ++ nl)%string;
         log_openable := true |} /\
    List.concat (map list_ascii_of_string chunks)
    = list_ascii_of_string ("first" ++ nl ++ "second" ++ nl)%string /\
    Forall (fun c => (1 <= String.length c <= 255)%nat) chunks.
Proof.
  apply (view_log_echoes_verbatim
           {| stdin := []; stdout := [];
              log_file := ("first" ++ nl ++ "second" ++ nl)%string;
              log_openable := true |}).
  cbn. intuition discriminate.
Defined.



End LogProperties.

(** ** [read_positive_double] *)

Section ReadPositiveDoubleProperties.

Lemma read_positive_double_loop_outcome
      {D : Type} {ops : DoubleOps D} {cmp : DoubleCmp D}
      (strtod : list ascii -> option (D * list ascii)) (prompt : string) :
  forall fuel w,
    (List.length (stdin w) < fuel)%nat ->
    (exists v w', read_positive_double_loop strtod fuel prompt w = Returned v w' /\
                  dle v (dlit 0) = false) \/
    (exists w', read_positive_double_loop strtod fuel prompt w = Exited 1 w' /\
                stdin w' = []).
Proof.
  induction fuel as [|fuel IH]; intros w Hw; [lia|].
  cbn [read_positive_double_loop].
  destruct (stdin w) as [|c t] eqn:Es.
  - right. unfold fgets. cbn [stdin printf]. rewrite Es.
    eexists. split; [reflexivity | exact Es].
  - destruct (fgets_some (printf prompt w) c t Es) as (buf & rest & F & _ & L).
    rewrite F. cbn [stdin printf] in L. rewrite Es in L.
    destruct (read_positive_double_attempt strtod buf) as [v|d] eqn:A.
    + left. exists v. eexists. split; [reflexivity|].
      revert A. unfold read_positive_double_attempt.
      destruct (strtod buf) as [[val endptr]|]; [|discriminate].
      destruct (negb _ && negb _); [discriminate|].
      destruct (dle val (dlit 0)) eqn:E; [discriminate|].
      now intros [= <-].
    + apply IH. cbn [stdin printf set_stdin]. try rewrite Es in Hw.
      cbn [List.length] in *. lia.
Qed.

(** X20.  Whatever [strtod] converts and whatever the input,
    [read_positive_double] over exact values either returns a value that is
    strictly positive, or, at end of input, the process exits with
    status 1. *)
Theorem read_positive_double_positive_or_exits
        (strtod : list ascii -> option (Q * list ascii))
        (prompt : string) (w : world) :
  (exists v w', read_positive_double strtod prompt w = Returned v w' /\
                (0 < v)%Q) \/
  (exists w', read_positive_double strtod prompt w = Exited 1 w' /\
              stdin w' = []).
Proof.
  destruct (read_positive_double_loop_outcome strtod prompt
              (S (List.length (stdin w))) w) as [(v & w' & E & P) | H];
    [lia | left | right; exact H].
  exists v, w'. split; [exact E|].
  cbn [dle dlit Q_cmp Q_double] in P.
  apply Qnot_le_lt. intros H. apply Qle_bool_iff in H. congruence.
Qed.

(** X21.  Over binary64 the test [val <= 0.0] is false for NaN and for
    +infinity: when [strtod] converts a line to one of them,
    [read_positive_double] returns it as a positive value. *)
Theorem read_positive_double_returns_nan_and_infinity
        (strtod : list ascii -> option (float * list ascii))
        (prompt : string) (line rest : list ascii) (x : float) (w : world) :
  x = PrimFloat.nan \/ x = PrimFloat.infinity ->
  ~ In LF line -> (List.length line <= 62)%nat ->
  strtod (line ++ [LF]) = Some (x, [LF]) ->
  stdin w = line ++ LF :: rest ->
  read_positive_double strtod prompt w
  = Returned x
      {| stdin := rest; stdout := stdout w ++ [prompt];
         log_file := log_file w; log_openable := log_openable w |}.
Proof.
  intros Hx HLF Hlen Hs Ein.
  unfold read_positive_double. cbn [read_positive_double_loop].
  unfold fgets. cbn [stdin printf]. rewrite Ein.
  destruct (line ++ LF :: rest) eqn:E; [now destruct line|]. rewrite <- E.
  change (64 - 1)%nat with 63%nat.
  rewrite read_line_text by (auto; lia).
  unfold read_positive_double_attempt. rewrite Hs.
  cbn [skip_blank isblank deref hd]. 
  change (Ascii.eqb LF " " || Ascii.eqb LF TAB) with false. cbn iota.
  change (negb (Ascii.eqb (deref [LF]) LF)) with false. cbn [andb].
  destruct Hx as [-> | ->]; reflexivity.
Qed.

Lemma read_positive_double_returns_typed_nan :
  read_positive_double (fun _ => Some (PrimFloat.nan, [LF])) "R: "
    {| stdin := ["n"; "a"; "n"; LF]%char; stdout := [];
       log_file := EmptyString; log_openable := true |}
  = Returned PrimFloat.nan
      {| stdin := []; stdout := [] ++ ["R: "%string];
         log_file := EmptyString; log_openable := true |}.
Proof.
  apply (read_positive_double_returns_nan_and_infinity
           (fun _ => Some (PrimFloat.nan, [LF])) "R: "
           ["n"; "a"; "n"]%char [] PrimFloat.nan).
  - now left.
  - cbn; intuition discriminate.
  - cbn; lia.
  - reflexivity.
  - reflexivity.
Defined.

End ReadPositiveDoubleProperties.
